(** * Scroll spy and viewport-entrance hooks of the portfolio page

    A shallow embedding of
    - [MainLayout] (components/layout/MainLayout.tsx): the scroll spy that
      decides which section is active, its frame throttle and
      [handleSectionChange];
    - [Navigation.handleNavClick] (components/layout/Navigation.tsx);
    - [useIntersectionObserver], [useScrollAnimation] and
      [useStaggeredIntersectionObserver] (hooks/useIntersectionObserver.ts);
    - the focus, keyboard and contrast helpers of utils/accessibility.ts;
    - the image carousel of components/ui/ProjectModal.tsx, the error
      handling of [OptimizedImage] and the typing animation of
      components/sections/Hero.tsx;
    - the counting and searching helpers of utils/portfolioHelpers.ts,
      [getDataStatistics] of utils/dataValidation.ts and the card lists of
      components/sections/Projects.tsx.

    The numbers of the scroll spy are IEEE 754 doubles: [JS.number] is the
    [spec_float] of the Standard Library at precision 53, and [+], [-], [*]
    and [/] are its operations, rounded to nearest-even as the ones of
    JavaScript are, so that a visibility ratio is the double [handleScroll]
    computes.  The delays of the animation hooks and the contrast ratios are
    exact rationals.  React is modelled at the granularity of one browser
    event: a state update made by a handler is committed, and the effects
    whose dependencies changed are re-run, before the next event. *)

From Stdlib Require Import QArith Qminmax Lqa List Bool Arith ZArith Lia String Permutation.
From Stdlib Require Import SpecFloat Zpower.
Import ListNotations.
Local Open Scope Q_scope.

(* ================================================================== *)
(** ** Definitions *)
(* ================================================================== *)

Module JS.

(** *** Numbers

    A [number] is a binary64 value: a signed zero, a signed infinity, [NaN],
    or [(-1)^s * m * 2^e]. *)
Definition prec : Z := 53.
Definition emax : Z := 1024.

Definition number : Type := spec_float.

Definition NaN : number := S754_nan.

(** The number an integer literal denotes. *)
Definition ofZ (z : Z) : number := binary_normalize prec emax z 0 false.

Definition add (x y : number) : number := SFadd prec emax x y.
Definition sub (x y : number) : number := SFsub prec emax x y.
Definition mul (x y : number) : number := SFmul prec emax x y.
Definition div (x y : number) : number := SFdiv prec emax x y.

(** The number a decimal literal denotes, the double nearest to [n / d]:
    for [n] and [d] below [2^53] the two integers are exact and the quotient
    is rounded once. *)
Definition ofQ (q : Q) : number := div (ofZ (Qnum q)) (ofZ (Zpos (Qden q))).

(** Sign bit of a number, [NaN] having none. *)
Definition sign (x : number) : option bool :=
  match x with
  | S754_nan => None
  | S754_zero s | S754_infinity s | S754_finite s _ _ => Some s
  end.

(** The value a number stands for: an infinity or [m * 2^e]; both zeros
    stand for [0], and [NaN] for nothing. *)
Inductive extended :=
| NegInfinity
| Finite (m e : Z)
| PosInfinity.

Definition value (x : number) : option extended :=
  match x with
  | S754_nan => None
  | S754_infinity s => Some (if s then NegInfinity else PosInfinity)
  | S754_zero _ => Some (Finite 0 0)
  | S754_finite s m e => Some (Finite (cond_Zopp s (Zpos m)) e)
  end.

(** [m * 2^e] in units of [2^e'], an integer for [e' <= e]. *)
Definition scale (m e e' : Z) : Z := (m * 2 ^ (e - e'))%Z.

Definition compareFinite (m1 e1 m2 e2 : Z) : comparison :=
  let e := Z.min e1 e2 in
  Z.compare (scale m1 e1 e) (scale m2 e2 e).

Definition compareValue (a b : extended) : comparison :=
  match a, b with
  | NegInfinity, NegInfinity => Eq
  | NegInfinity, _ => Lt
  | _, NegInfinity => Gt
  | PosInfinity, PosInfinity => Eq
  | PosInfinity, _ => Gt
  | _, PosInfinity => Lt
  | Finite m1 e1, Finite m2 e2 => compareFinite m1 e1 m2 e2
  end.

(** The comparison behind [<], [>] and [===]: numbers compare as their
    values do, and [NaN] is not comparable with anything.  It is defined on
    the values, so that its laws hold of every [spec_float]; on those in
    normal form it is [SFcompare]. *)
Definition compare (x y : number) : option comparison :=
  match value x, value y with
  | Some a, Some b => Some (compareValue a b)
  | _, _ => None
  end.

(** [x > y], [x < y] and [x === y]: false whenever [NaN] is involved. *)
Definition gt (x y : number) : bool :=
  match compare x y with Some Gt => true | _ => false end.

Definition lt (x y : number) : bool :=
  match compare x y with Some Lt => true | _ => false end.

Definition eqb (x y : number) : bool :=
  match compare x y with Some Eq => true | _ => false end.

(** [Math.max(x, y)] and [Math.min(x, y)]: [NaN] if an argument is [NaN],
    and [+0] counts as larger than [-0]. *)
Definition max (x y : number) : number :=
  match compare x y with
  | None => NaN
  | Some Lt => y
  | Some Gt => x
  | Some Eq =>
      match x, y with
      | S754_zero sx, S754_zero sy => S754_zero (sx && sy)
      | _, _ => x
      end
  end.

Definition min (x y : number) : number :=
  match compare x y with
  | None => NaN
  | Some Lt => x
  | Some Gt => y
  | Some Eq =>
      match x, y with
      | S754_zero sx, S754_zero sy => S754_zero (sx || sy)
      | _, _ => x
      end
  end.

(** The rational a finite number is equal to (zero for the others). *)
Definition toQ (x : number) : Q :=
  match x with
  | S754_finite s m e => inject_Z (cond_Zopp s (Zpos m)) * 2 ^ e
  | _ => 0
  end.

(** *** Completions *)

(** Errors a statement can throw. *)
Inductive error :=
| ReferenceError (name : string)
| TypeError.

Inductive completion (A : Type) :=
| Normal (a : A)
| Throw (e : error).
Arguments Normal {A} a.
Arguments Throw {A} e.

End JS.

Module MainLayout.

(** [SectionId] and the order of the [sections] array of [handleScroll]. *)
Inductive SectionId :=
| hero | experience | projects | education | skills | contact.

Definition SectionId_eqb (a b : SectionId) : bool :=
  match a, b with
  | hero, hero | experience, experience | projects, projects
  | education, education | skills, skills | contact, contact => true
  | _, _ => false
  end.

Definition sections : list SectionId :=
  [hero; experience; projects; education; skills; contact].

(** Position of an identifier in [sections]. *)
Definition index (s : SectionId) : nat :=
  match s with
  | hero => 0 | experience => 1 | projects => 2
  | education => 3 | skills => 4 | contact => 5
  end%nat.

(** The two fields of [DOMRect] that [handleScroll] reads; [rect_top] is
    relative to the viewport. *)
Record DOMRect := { rect_top : JS.number; rect_height : JS.number }.

(** A rendered section: what its [getBoundingClientRect()] returns when the
    page is scrolled to a given offset. *)
Record Element := { boundingClientRect : JS.number -> DOMRect }.

(** What [handleScroll] reads from [window] and [document]. *)
Record Browser := {
  scrollY : JS.number;
  innerHeight : JS.number;
  getElementById : SectionId -> option Element
}.

Definition getBoundingClientRect (b : Browser) (element : Element) : DOMRect :=
  boundingClientRect element (scrollY b).

(** An element laid out at [top] on the page and [height] tall, measured as
    the test suite measures it: [top: positions[id] - window.scrollY]. *)
Definition box (top height : JS.number) : Element :=
  {| boundingClientRect := fun y =>
       {| rect_top := JS.sub top y; rect_height := height |} |}.

(** [visibility] of one section, as computed in the loop of [handleScroll]. *)
Definition visibility (b : Browser) (rect : DOMRect) : JS.number :=
  let elementTop := JS.add (rect_top rect) (scrollY b) in
  let elementBottom := JS.add elementTop (rect_height rect) in
  let visibleTop := JS.max elementTop (scrollY b) in
  let visibleBottom :=
    JS.min elementBottom (JS.add (scrollY b) (innerHeight b)) in
  let visibleHeight := JS.max (JS.ofZ 0) (JS.sub visibleBottom visibleTop) in
  JS.div visibleHeight (rect_height rect).

(** One iteration of [for (const sectionId of sections)] on the pair
    [(currentSection, maxVisibility)]. *)
Definition loopBody (b : Browser) (acc : SectionId * JS.number)
    (sectionId : SectionId) : SectionId * JS.number :=
  match getElementById b sectionId with
  | Some element =>
      let rect := getBoundingClientRect b element in
      let v := visibility b rect in
      if JS.gt v (snd acc) then (sectionId, v) else acc
  | None => acc
  end.

(** The loop over a list of identifiers, from given initial values. *)
Definition scan (b : Browser) (l : list SectionId)
    (init : SectionId * JS.number) : SectionId * JS.number :=
  fold_left (loopBody b) l init.

(** [currentSection] when the loop of [handleScroll] ends:
    [let currentSection = 'hero'; let maxVisibility = 0; for ...]. *)
Definition currentSection (b : Browser) : SectionId :=
  fst (scan b sections (hero, JS.ofZ 0)).

(** [handleScroll] of an effect run that captured [captured] as
    [activeSection], applied to the React state [state]:
    [if (currentSection !== activeSection) setActiveSection(currentSection)]. *)
Definition handleScroll (b : Browser) (captured state : SectionId) : SectionId :=
  let c := currentSection b in
  if SectionId_eqb c captured then state else c.

(** The ratio [handleScroll] computes for an identifier whose element is
    found. *)
Definition visibilityOf (b : Browser) (s : SectionId) : option JS.number :=
  match getElementById b s with
  | Some element => Some (visibility b (getBoundingClientRect b element))
  | None => None
  end.

(** The ratio of the specification: visible overlap over region height,
    from the numbers [handleScroll] reads but as rationals, without
    rounding; a region of height zero has ratio zero. *)
Definition spec_visibleHeight (b : Browser) (rect : DOMRect) : Q :=
  let regionTop := JS.toQ (rect_top rect) + JS.toQ (scrollY b) in
  let regionBottom := regionTop + JS.toQ (rect_height rect) in
  let viewportTop := JS.toQ (scrollY b) in
  let viewportBottom := JS.toQ (scrollY b) + JS.toQ (innerHeight b) in
  Qmax 0 (Qmin regionBottom viewportBottom - Qmax regionTop viewportTop).

Definition spec_visibilityRatio (b : Browser) (rect : DOMRect) : Q :=
  if Qeq_bool (JS.toQ (rect_height rect)) 0 then 0
  else spec_visibleHeight b rect / JS.toQ (rect_height rect).

(** Ratio of an identifier, zero when its element is missing. *)
Definition ratioOf (b : Browser) (s : SectionId) : Q :=
  match getElementById b s with
  | Some e => spec_visibilityRatio b (getBoundingClientRect b e)
  | None => 0
  end.

(** The layout of the test suite: every section [h] tall, stacked without
    gaps in the order of [sections]. *)
Definition stacked (h : JS.number) (s : SectionId) : option Element :=
  Some (box (JS.mul (JS.ofZ (Z.of_nat (index s))) h) h).

(** A page laid out on fractional pixels: [hero] and [experience], 300.3px
    each, from 120.3px on, and the other sections as in [stacked]. *)
Definition fractional (s : SectionId) : option Element :=
  match s with
  | hero => Some (box (JS.ofQ (1203 # 10)) (JS.ofQ (3003 # 10)))
  | experience => Some (box (JS.ofQ (4206 # 10)) (JS.ofQ (3003 # 10)))
  | _ => stacked (JS.ofZ 1024) s
  end.

(** *** The mounted component

    [MainLayout] keeps [activeSection] in React state; its effect has
    [activeSection] as only dependency, so every change of [activeSection]
    removes the scroll listener of the previous run and runs the effect
    again, with a fresh [ticking] and a fresh [handleScroll] that captures the
    new value. *)

(** A callback handed to [requestAnimationFrame] and not yet run: the effect
    run that created it and the [activeSection] that run captured. *)
Record Frame := { frame_instance : nat; frame_active : SectionId }.

Record State := {
  browser : Browser;
  activeSection : SectionId;     (* useState<SectionId>('hero') *)
  captured : SectionId;          (* activeSection as the last effect run saw it *)
  instance : nat;                (* the effect run whose listener is registered *)
  ticking : bool;                (* the variable [ticking] of that run *)
  frames : list Frame;           (* requestAnimationFrame queue, oldest first *)
  recomputations : nat;          (* calls of handleScroll so far *)
  isMenuOpen : bool;             (* state of Navigation *)
  smoothScrolls : list SectionId (* targets of scrollIntoView({behavior: 'smooth'}) *)
}.

Definition setScrollY (y : JS.number) (b : Browser) : Browser :=
  {| scrollY := y; innerHeight := innerHeight b;
     getElementById := getElementById b |}.

Definition withBrowser (b : Browser) (st : State) : State :=
  {| browser := b; activeSection := activeSection st; captured := captured st;
     instance := instance st; ticking := ticking st; frames := frames st;
     recomputations := recomputations st; isMenuOpen := isMenuOpen st;
     smoothScrolls := smoothScrolls st |}.

Definition setActiveSection (section : SectionId) (st : State) : State :=
  {| browser := browser st; activeSection := section; captured := captured st;
     instance := instance st; ticking := ticking st; frames := frames st;
     recomputations := recomputations st; isMenuOpen := isMenuOpen st;
     smoothScrolls := smoothScrolls st |}.

Definition setTicking (t : bool) (st : State) : State :=
  {| browser := browser st; activeSection := activeSection st;
     captured := captured st; instance := instance st; ticking := t;
     frames := frames st; recomputations := recomputations st;
     isMenuOpen := isMenuOpen st; smoothScrolls := smoothScrolls st |}.

Definition setFrames (fs : list Frame) (st : State) : State :=
  {| browser := browser st; activeSection := activeSection st;
     captured := captured st; instance := instance st; ticking := ticking st;
     frames := fs; recomputations := recomputations st;
     isMenuOpen := isMenuOpen st; smoothScrolls := smoothScrolls st |}.

Definition setIsMenuOpen (o : bool) (st : State) : State :=
  {| browser := browser st; activeSection := activeSection st;
     captured := captured st; instance := instance st; ticking := ticking st;
     frames := frames st; recomputations := recomputations st;
     isMenuOpen := o; smoothScrolls := smoothScrolls st |}.

Definition scrollIntoView (target : SectionId) (st : State) : State :=
  {| browser := browser st; activeSection := activeSection st;
     captured := captured st; instance := instance st; ticking := ticking st;
     frames := frames st; recomputations := recomputations st;
     isMenuOpen := isMenuOpen st;
     smoothScrolls := smoothScrolls st ++ [target] |}.

(** A call of the [handleScroll] closure that captured [a]. *)
Definition callHandleScroll (a : SectionId) (st : State) : State :=
  {| browser := browser st;
     activeSection := handleScroll (browser st) a (activeSection st);
     captured := captured st; instance := instance st; ticking := ticking st;
     frames := frames st; recomputations := S (recomputations st);
     isMenuOpen := isMenuOpen st; smoothScrolls := smoothScrolls st |}.

(** One run of the effect: the listener of the previous run is removed, a new
    closure with [ticking = false] is registered, and [handleScroll()] is
    called at once ("Initial check"). *)
Definition effect (st : State) : State :=
  callHandleScroll (activeSection st)
    {| browser := browser st; activeSection := activeSection st;
       captured := activeSection st; instance := S (instance st);
       ticking := false; frames := frames st;
       recomputations := recomputations st; isMenuOpen := isMenuOpen st;
       smoothScrolls := smoothScrolls st |}.

(** React after a handler returned: the effect runs again as long as its
    dependency [activeSection] differs from the value of the last run. *)
Fixpoint commit (fuel : nat) (st : State) : State :=
  match fuel with
  | O => st
  | S k =>
      if SectionId_eqb (activeSection st) (captured st) then st
      else commit k (effect st)
  end.

Definition render (st : State) : State := commit 2 st.

Definition initial (b : Browser) : State :=
  {| browser := b; activeSection := hero; captured := hero; instance := 0;
     ticking := false; frames := []; recomputations := 0;
     isMenuOpen := false; smoothScrolls := [] |}.

(** Mounting runs the effect once, whatever the dependency. *)
Definition mount (b : Browser) : State := render (effect (initial b)).

(** The registered scroll listener. *)
Definition throttledHandleScroll (st : State) : State :=
  if ticking st then st
  else
    setTicking true
      (setFrames (frames st ++ [{| frame_instance := instance st;
                                   frame_active := captured st |}]) st).

(** The callback given to [requestAnimationFrame]: [handleScroll()], then
    [ticking = false] on the variable of the run that created the callback. *)
Definition frameCallback (st : State) (f : Frame) : State :=
  let st1 := callHandleScroll (frame_active f) st in
  if Nat.eqb (frame_instance f) (instance st1) then setTicking false st1
  else st1.

(** [handleSectionChange], passed to [Navigation] as [onSectionChange]. *)
Definition handleSectionChange (section : SectionId) (st : State) : State :=
  setActiveSection section st.

(** [handleNavClick] of [Navigation]. *)
Definition handleNavClick (item : SectionId) (st : State) : State :=
  let st1 := handleSectionChange item st in
  let st2 := setIsMenuOpen false st1 in
  match getElementById (browser st2) item with
  | Some element => scrollIntoView item st2
  | None => st2
  end.

Inductive Event :=
| Scroll (y : JS.number)  (* the page is scrolled to [y]; 'scroll' is dispatched *)
| AnimationFrame          (* the browser runs the pending frame callbacks *)
| Click (item : SectionId). (* a navigation button is activated *)

Definition step (st : State) (e : Event) : State :=
  match e with
  | Scroll y =>
      render (throttledHandleScroll
                (withBrowser (setScrollY y (browser st)) st))
  | AnimationFrame =>
      render (fold_left frameCallback (frames st) (setFrames [] st))
  | Click item => render (handleNavClick item st)
  end.

Definition run (st : State) (trace : list Event) : State :=
  fold_left step trace st.


(** The states the throttle goes through: the dependency of the effect is up
    to date, and a frame is pending exactly when [ticking] is set, in which
    case it is the only one and belongs to the registered run. *)
Definition throttle_inv (st : State) : Prop :=
  activeSection st = captured st /\
  ((ticking st = false /\ frames st = []) \/
   (ticking st = true /\
    frames st = [{| frame_instance := instance st;
                    frame_active := captured st |}])).

(** Whether a callback of the registered effect run is in the queue. *)
Definition pendingOwn (st : State) : bool :=
  existsb (fun f => Nat.eqb (frame_instance f) (instance st)) (frames st).

(** What every sequence of events keeps, navigation clicks included. *)
Definition spy_inv (st : State) : Prop :=
  activeSection st = captured st /\
  ticking st = pendingOwn st /\
  NoDup (map frame_instance (frames st)) /\
  Forall (fun f => (frame_instance f <= instance st)%nat) (frames st) /\
  Forall (fun f => frame_instance f = instance st ->
                   frame_active f = captured st) (frames st) /\
  (pendingOwn st = false -> activeSection st = currentSection (browser st)).

End MainLayout.

Module UseIntersectionObserver.

(** [threshold?: number | number[]]. *)
Inductive Threshold :=
| Single (t : Q)
| Several (ts : list Q).

(** [interface UseIntersectionObserverOptions]: every field is optional. *)
Record UseIntersectionObserverOptions := {
  opt_threshold : option Threshold;
  opt_rootMargin : option string;
  opt_triggerOnce : option bool
}.

(** The destructuring of [options] with its defaults. *)
Definition threshold (options : UseIntersectionObserverOptions) : Threshold :=
  match opt_threshold options with Some t => t | None => Single (1 # 10) end.

Definition rootMargin (options : UseIntersectionObserverOptions) : string :=
  match opt_rootMargin options with Some m => m | None => "0px"%string end.

Definition triggerOnce (options : UseIntersectionObserverOptions) : bool :=
  match opt_triggerOnce options with Some t => t | None => true end.

(** What the hook asks of the host: the result of
    [window.matchMedia('(prefers-reduced-motion: reduce)').matches] and
    whether the global [IntersectionObserver] is defined. *)
Record Host := {
  prefersReducedMotion : bool;
  hasIntersectionObserver : bool
}.

(** An observer built by one run of the effect: its init dictionary and the
    values of [hasTriggered] and [triggerOnce] its callback closes over. *)
Record Observer := {
  init_threshold : Threshold;
  init_rootMargin : string;
  seen_hasTriggered : bool;
  seen_triggerOnce : bool
}.

Record Hook := {
  isIntersecting : bool;        (* useState(false) *)
  hasTriggered : bool;          (* useState(false) *)
  depHasTriggered : bool;       (* hasTriggered as the last effect run saw it *)
  observing : option Observer;  (* the observer that observes the element *)
  constructed : nat             (* observers constructed so far *)
}.

Definition setIsIntersecting (v : bool) (h : Hook) : Hook :=
  {| isIntersecting := v; hasTriggered := hasTriggered h;
     depHasTriggered := depHasTriggered h; observing := observing h;
     constructed := constructed h |}.

Definition setHasTriggered (v : bool) (h : Hook) : Hook :=
  {| isIntersecting := isIntersecting h; hasTriggered := v;
     depHasTriggered := depHasTriggered h; observing := observing h;
     constructed := constructed h |}.

Definition initial : Hook :=
  {| isIntersecting := false; hasTriggered := false; depHasTriggered := false;
     observing := None; constructed := 0 |}.

(** The callback given to [new IntersectionObserver], applied to
    [entry.isIntersecting] of the first entry. *)
Definition callback (o : Observer) (entryIsIntersecting : bool) (h : Hook) : Hook :=
  let isCurrentlyIntersecting := entryIsIntersecting in
  if isCurrentlyIntersecting
     && (negb (seen_hasTriggered o) || negb (seen_triggerOnce o))
  then
    let h1 := setIsIntersecting true h in
    if seen_triggerOnce o then setHasTriggered true h1 else h1
  else if negb (seen_triggerOnce o) then
    setIsIntersecting isCurrentlyIntersecting h
  else h.

(** The [isIntersecting] field of the object the hook returns. *)
Definition returned_isIntersecting
    (options : UseIntersectionObserverOptions) (h : Hook) : bool :=
  if triggerOnce options then hasTriggered h || isIntersecting h
  else isIntersecting h.

Section Effect.

Context {T : Type}.
Variable host : Host.
Variable options : UseIntersectionObserverOptions.
(** [elementRef.current] when the effect runs. *)
Variable elementRef : option T.

(** One run of the effect, after the cleanup of the previous run
    ([observer.unobserve(element)]). *)
Definition effect (h : Hook) : JS.completion Hook :=
  let h0 := {| isIntersecting := isIntersecting h;
               hasTriggered := hasTriggered h;
               depHasTriggered := hasTriggered h;
               observing := None;
               constructed := constructed h |} in
  match elementRef with
  | None => JS.Normal h0
  | Some element =>
      if prefersReducedMotion host then
        JS.Normal (setHasTriggered true (setIsIntersecting true h0))
      else if hasIntersectionObserver host then
        JS.Normal
          {| isIntersecting := isIntersecting h0;
             hasTriggered := hasTriggered h0;
             depHasTriggered := depHasTriggered h0;
             observing := Some {| init_threshold := threshold options;
                                  init_rootMargin := rootMargin options;
                                  seen_hasTriggered := hasTriggered h0;
                                  seen_triggerOnce := triggerOnce options |};
             constructed := S (constructed h0) |}
      else JS.Throw (JS.ReferenceError "IntersectionObserver")
  end.

(** React after a state update: the effect runs again as long as its
    dependency [hasTriggered] differs from the value of the last run (the
    other dependencies are the options, which are fixed here). *)
Fixpoint commit (fuel : nat) (h : Hook) : JS.completion Hook :=
  match fuel with
  | O => JS.Normal h
  | S k =>
      if Bool.eqb (hasTriggered h) (depHasTriggered h) then JS.Normal h
      else match effect h with
           | JS.Normal h' => commit k h'
           | JS.Throw e => JS.Throw e
           end
  end.

Definition render (h : Hook) : JS.completion Hook := commit 2 h.

(** Mounting runs the effect once on the initial state. *)
Definition mount : JS.completion Hook :=
  match effect initial with
  | JS.Normal h => render h
  | JS.Throw e => JS.Throw e
  end.

(** A notification of the browser: it reaches the callback of the observer
    that observes the element; without one there is nobody to notify. *)
Definition notify (entryIsIntersecting : bool) (h : Hook) : JS.completion Hook :=
  match observing h with
  | Some o => render (callback o entryIsIntersecting h)
  | None => JS.Normal h
  end.

Fixpoint deliver (entries : list bool) (h : Hook) : JS.completion Hook :=
  match entries with
  | [] => JS.Normal h
  | entry :: rest =>
      match notify entry h with
      | JS.Normal h' => deliver rest h'
      | JS.Throw e => JS.Throw e
      end
  end.

(** The hook from mount through a sequence of notifications. *)
Definition run (entries : list bool) : JS.completion Hook :=
  match mount with
  | JS.Normal h => deliver entries h
  | JS.Throw e => JS.Throw e
  end.

End Effect.

(** What holds of the hook between two events: the dependency of the effect
    is up to date, and an observer, when there is one, closes over the current
    values and was built on a host that allows it. *)
Definition hook_inv {T : Type} (host : Host)
    (options : UseIntersectionObserverOptions) (elementRef : option T)
    (h : Hook) : Prop :=
  depHasTriggered h = hasTriggered h /\
  match observing h with
  | Some o =>
      seen_triggerOnce o = triggerOnce options /\
      seen_hasTriggered o = hasTriggered h /\
      hasIntersectionObserver host = true /\
      prefersReducedMotion host = false /\
      elementRef <> None
  | None => True
  end.

(** Hosts and options used in examples. *)
Definition observed_host : Host :=
  {| prefersReducedMotion := false; hasIntersectionObserver := true |}.

Definition default_options : UseIntersectionObserverOptions :=
  {| opt_threshold := None; opt_rootMargin := None; opt_triggerOnce := None |}.

Definition toggling_options : UseIntersectionObserverOptions :=
  {| opt_threshold := None; opt_rootMargin := None;
     opt_triggerOnce := Some false |}.

End UseIntersectionObserver.

Module AnimationHooks.

Import UseIntersectionObserver.

(** Timers: a timer set by [setTimeout(callback, delay)] when the clock shows
    [now] is due at [dueTime now delay], a delay below zero counting as zero;
    the conversion of the delay to whole milliseconds is not modelled.  A
    pending timer runs when the clock has reached its due time. *)
Definition dueTime (now delay : Q) : Q := now + Qmax 0 delay.

(** What happens to a mounted hook: the observer delivers an entry, or time
    passes. *)
Inductive HookEvent :=
| Entry (entryIsIntersecting : bool)
| Elapse (dt : Q).

Definition nonnegative (e : HookEvent) : Prop :=
  match e with
  | Entry _ => True
  | Elapse dt => 0 <= dt
  end.

(** *** [useScrollAnimation] *)

Record ScrollAnimationOptions := {
  sa_observerOptions : UseIntersectionObserverOptions;
  opt_animationDelay : option Q;
  opt_animationDuration : option Q
}.

Definition animationDelay (options : ScrollAnimationOptions) : Q :=
  match opt_animationDelay options with Some d => d | None => 0 end.

Definition animationDuration (options : ScrollAnimationOptions) : Q :=
  match opt_animationDuration options with Some d => d | None => 6 # 10 end.

Record ScrollAnimation := {
  sa_hook : Hook;            (* the state of useIntersectionObserver *)
  shouldAnimate : bool;      (* useState(false) *)
  sa_dep : bool;             (* isIntersecting as the last effect run saw it *)
  sa_timeout : option Q;     (* due time of the timer of that run, while pending *)
  sa_clock : Q
}.

(** One run of the effect of [useScrollAnimation], after the cleanup of the
    previous run ([clearTimeout(timeout)]). *)
Definition animationEffect (options : ScrollAnimationOptions)
    (s : ScrollAnimation) : ScrollAnimation :=
  let isIntersecting :=
    returned_isIntersecting (sa_observerOptions options) (sa_hook s) in
  {| sa_hook := sa_hook s;
     shouldAnimate := shouldAnimate s;
     sa_dep := isIntersecting;
     sa_timeout :=
       if isIntersecting
       then Some (dueTime (sa_clock s) (animationDelay options * 1000))
       else None;
     sa_clock := sa_clock s |}.

(** React after a render: the effect runs again when [isIntersecting]
    changed ([animationDelay] is fixed here). *)
Definition animationCommit (options : ScrollAnimationOptions)
    (s : ScrollAnimation) : ScrollAnimation :=
  if Bool.eqb (returned_isIntersecting (sa_observerOptions options) (sa_hook s))
              (sa_dep s)
  then s
  else animationEffect options s.

Definition withHook (h : Hook) (s : ScrollAnimation) : ScrollAnimation :=
  {| sa_hook := h; shouldAnimate := shouldAnimate s; sa_dep := sa_dep s;
     sa_timeout := sa_timeout s; sa_clock := sa_clock s |}.

(** Time passes: the pending timer, once due, runs [setShouldAnimate(true)]. *)
Definition elapse (dt : Q) (s : ScrollAnimation) : ScrollAnimation :=
  let now := sa_clock s + dt in
  match sa_timeout s with
  | Some due =>
      if Qle_bool due now then
        {| sa_hook := sa_hook s; shouldAnimate := true; sa_dep := sa_dep s;
           sa_timeout := None; sa_clock := now |}
      else
        {| sa_hook := sa_hook s; shouldAnimate := shouldAnimate s;
           sa_dep := sa_dep s; sa_timeout := Some due; sa_clock := now |}
  | None =>
      {| sa_hook := sa_hook s; shouldAnimate := shouldAnimate s;
         sa_dep := sa_dep s; sa_timeout := None; sa_clock := now |}
  end.

(** The [animate] entry of [animationProps]: opacity and vertical offset. *)
Definition animate (s : ScrollAnimation) : Q * Q :=
  if shouldAnimate s then (1, 0) else (0, 30).

Section ScrollAnimationHook.

Context {T : Type}.
Variable host : Host.
Variable options : ScrollAnimationOptions.
Variable elementRef : option T.

(** At mount both effects run on the first render, where [isIntersecting] is
    false: the second one does nothing then. *)
Definition mountScrollAnimation : JS.completion ScrollAnimation :=
  match mount host (sa_observerOptions options) elementRef with
  | JS.Normal h =>
      JS.Normal (animationCommit options
                   {| sa_hook := h; shouldAnimate := false; sa_dep := false;
                      sa_timeout := None; sa_clock := 0 |})
  | JS.Throw e => JS.Throw e
  end.

Definition stepScrollAnimation (s : ScrollAnimation) (e : HookEvent)
    : JS.completion ScrollAnimation :=
  match e with
  | Entry entry =>
      match notify host (sa_observerOptions options) elementRef entry (sa_hook s) with
      | JS.Normal h => JS.Normal (animationCommit options (withHook h s))
      | JS.Throw e => JS.Throw e
      end
  | Elapse dt => JS.Normal (elapse dt s)
  end.

Fixpoint runScrollAnimationFrom (events : list HookEvent) (s : ScrollAnimation)
    : JS.completion ScrollAnimation :=
  match events with
  | [] => JS.Normal s
  | e :: rest =>
      match stepScrollAnimation s e with
      | JS.Normal s' => runScrollAnimationFrom rest s'
      | JS.Throw e => JS.Throw e
      end
  end.

Definition runScrollAnimation (events : list HookEvent)
    : JS.completion ScrollAnimation :=
  match mountScrollAnimation with
  | JS.Normal s => runScrollAnimationFrom events s
  | JS.Throw e => JS.Throw e
  end.

End ScrollAnimationHook.

(** *** [useStaggeredIntersectionObserver] *)

(** A JavaScript array: [None] is a hole.  [arr[i] = v] on a copy: inside
    the array it replaces the element, beyond it the array grows, the
    positions in between being holes. *)
Definition arrayAssign {A : Type} (i : nat) (v : A) (arr : list (option A))
    : list (option A) :=
  if Nat.ltb i (List.length arr)
  then firstn i arr ++ Some v :: skipn (S i) arr
  else arr ++ repeat None (i - List.length arr) ++ [Some v].

Record StaggerOptions := {
  sg_observerOptions : UseIntersectionObserverOptions;
  opt_staggerDelay : option Q
}.

Definition staggerDelay (options : StaggerOptions) : Q :=
  match opt_staggerDelay options with Some d => d | None => 1 # 10 end.

Record Stagger := {
  sg_hook : Hook;                       (* the state of useIntersectionObserver *)
  visibleItems : list (option bool);    (* useState(new Array(itemCount).fill(false)) *)
  sg_dep : bool;                        (* isIntersecting as the last effect run saw it *)
  sg_timeouts : list (Q * nat);         (* pending timers of that run: due time, item *)
  sg_clock : Q
}.

(** The delay of item [i]: [i * staggerDelay * 1000]. *)
Definition itemDelay (options : StaggerOptions) (i : nat) : Q :=
  inject_Z (Z.of_nat i) * staggerDelay options * 1000.

(** One run of the effect, after the cleanup of the previous run
    ([timeouts.forEach(clearTimeout)]). *)
Definition staggerEffect (itemCount : nat) (options : StaggerOptions)
    (s : Stagger) : Stagger :=
  let isIntersecting :=
    returned_isIntersecting (sg_observerOptions options) (sg_hook s) in
  {| sg_hook := sg_hook s;
     visibleItems := visibleItems s;
     sg_dep := isIntersecting;
     sg_timeouts :=
       if isIntersecting
       then map (fun i => (dueTime (sg_clock s) (itemDelay options i), i))
                (seq 0 itemCount)
       else [];
     sg_clock := sg_clock s |}.

Definition staggerCommit (itemCount : nat) (options : StaggerOptions)
    (s : Stagger) : Stagger :=
  if Bool.eqb (returned_isIntersecting (sg_observerOptions options) (sg_hook s))
              (sg_dep s)
  then s
  else staggerEffect itemCount options s.

(** The callback of the timer of item [i]:
    [setVisibleItems(prev => { newState = [...prev]; newState[i] = true })]. *)
Definition reveal (arr : list (option bool)) (timer : Q * nat)
    : list (option bool) :=
  arrayAssign (snd timer) true arr.

Definition isDue (now : Q) (timer : Q * nat) : bool := Qle_bool (fst timer) now.

(** Time passes: the pending timers that are due run, in the order they were
    set. *)
Definition elapseStagger (dt : Q) (s : Stagger) : Stagger :=
  let now := sg_clock s + dt in
  {| sg_hook := sg_hook s;
     visibleItems :=
       fold_left reveal (filter (isDue now) (sg_timeouts s)) (visibleItems s);
     sg_dep := sg_dep s;
     sg_timeouts := filter (fun t => negb (isDue now t)) (sg_timeouts s);
     sg_clock := now |}.

Section StaggerHook.

Context {T : Type}.
Variable host : Host.
Variable itemCount : nat.
Variable options : StaggerOptions.
Variable elementRef : option T.

Definition mountStagger : JS.completion Stagger :=
  match mount host (sg_observerOptions options) elementRef with
  | JS.Normal h =>
      JS.Normal (staggerCommit itemCount options
                   {| sg_hook := h;
                      visibleItems := repeat (Some false) itemCount;
                      sg_dep := false; sg_timeouts := []; sg_clock := 0 |})
  | JS.Throw e => JS.Throw e
  end.

Definition stepStagger (s : Stagger) (e : HookEvent) : JS.completion Stagger :=
  match e with
  | Entry entry =>
      match notify host (sg_observerOptions options) elementRef entry (sg_hook s) with
      | JS.Normal h =>
          JS.Normal (staggerCommit itemCount options
                       {| sg_hook := h; visibleItems := visibleItems s;
                          sg_dep := sg_dep s; sg_timeouts := sg_timeouts s;
                          sg_clock := sg_clock s |})
      | JS.Throw e => JS.Throw e
      end
  | Elapse dt => JS.Normal (elapseStagger dt s)
  end.

Fixpoint runStaggerFrom (events : list HookEvent) (s : Stagger)
    : JS.completion Stagger :=
  match events with
  | [] => JS.Normal s
  | e :: rest =>
      match stepStagger s e with
      | JS.Normal s' => runStaggerFrom rest s'
      | JS.Throw e => JS.Throw e
      end
  end.

Definition runStagger (events : list HookEvent) : JS.completion Stagger :=
  match mountStagger with
  | JS.Normal s => runStaggerFrom events s
  | JS.Throw e => JS.Throw e
  end.

End StaggerHook.

(** What holds of [useScrollAnimation] between two events. *)
Definition animation_inv {T : Type} (host : Host)
    (options : ScrollAnimationOptions) (elementRef : option T)
    (s : ScrollAnimation) : Prop :=
  hook_inv host (sa_observerOptions options) elementRef (sa_hook s) /\
  sa_dep s = returned_isIntersecting (sa_observerOptions options) (sa_hook s) /\
  (sa_dep s = false -> sa_timeout s = None) /\
  (sa_dep s = true ->
   shouldAnimate s = true \/
   exists due, sa_timeout s = Some due /\
               due <= sa_clock s + Qmax 0 (animationDelay options * 1000)).

(** Without a sign condition on the time step, what does not depend on the
    clock is kept. *)
Definition animation_inv0 {T : Type} (host : Host)
    (options : ScrollAnimationOptions) (elementRef : option T)
    (s : ScrollAnimation) : Prop :=
  hook_inv host (sa_observerOptions options) elementRef (sa_hook s) /\
  sa_dep s = returned_isIntersecting (sa_observerOptions options) (sa_hook s) /\
  (sa_dep s = false -> sa_timeout s = None).

(** An array of [n] booleans whose first [k] are true. *)
Definition prefixArray (k n : nat) : list (option bool) :=
  repeat (Some true) k ++ repeat (Some false) (n - k).

(** The timers of items [j], ..., [j + n - 1], set when the clock showed
    [base]. *)
Definition schedule (options : StaggerOptions) (base : Q) (j n : nat)
    : list (Q * nat) :=
  map (fun i => (dueTime base (itemDelay options i), i)) (seq j n).

(** What holds of [useStaggeredIntersectionObserver] between two events,
    [k] items being revealed; under [timed] the clock has not run
    backwards. *)
Definition stagger_inv {T : Type} (host : Host) (itemCount : nat)
    (options : StaggerOptions) (elementRef : option T) (timed : bool)
    (s : Stagger) (k : nat) : Prop :=
  hook_inv host (sg_observerOptions options) elementRef (sg_hook s) /\
  sg_dep s = returned_isIntersecting (sg_observerOptions options) (sg_hook s) /\
  (k <= itemCount)%nat /\
  visibleItems s = prefixArray k itemCount /\
  exists j n base,
    sg_timeouts s = schedule options base j n /\
    (j <= k)%nat /\ (j + n <= itemCount)%nat /\
    (sg_dep s = false -> n = 0%nat) /\
    (sg_dep s = true -> (j + n)%nat = itemCount) /\
    (timed = true -> base <= sg_clock s).

(** Options used in examples. *)
Definition animation_options (observer : UseIntersectionObserverOptions)
    (delay : option Q) : ScrollAnimationOptions :=
  {| sa_observerOptions := observer; opt_animationDelay := delay;
     opt_animationDuration := None |}.

Definition stagger_options (observer : UseIntersectionObserverOptions)
    (delay : option Q) : StaggerOptions :=
  {| sg_observerOptions := observer; opt_staggerDelay := delay |}.

End AnimationHooks.

Module Accessibility.

Local Open Scope Z_scope.

(** DOM elements are told apart by identity. *)
Definition HTMLElement := nat.

(** [Array.prototype.indexOf]: the first position of the element, or -1. *)
Fixpoint indexOf (x : HTMLElement) (l : list HTMLElement) : Z :=
  match l with
  | [] => -1
  | y :: rest =>
      if Nat.eqb x y then 0
      else let r := indexOf x rest in
           if r =? -1 then -1 else r + 1
  end.

(** [arr[i]] for an integer [i]: undefined outside the array. *)
Definition at_index (l : list HTMLElement) (i : Z) : option HTMLElement :=
  if i <? 0 then None else nth_error l (Z.to_nat i).

Definition array_length (l : list HTMLElement) : Z := Z.of_nat (List.length l).

(** [a || b] on elements, which are objects and so truthy when defined. *)
Definition or_else (a b : option HTMLElement) : option HTMLElement :=
  match a with Some e => Some e | None => b end.

(** [focusUtils.getNextFocusable] and [getPreviousFocusable], on the list
    the selector query returns for the container. *)
Definition getNextFocusable (current : HTMLElement)
    (focusableElements : list HTMLElement) : option HTMLElement :=
  let currentIndex := indexOf current focusableElements in
  or_else (at_index focusableElements (currentIndex + 1))
          (at_index focusableElements 0).

Definition getPreviousFocusable (current : HTMLElement)
    (focusableElements : list HTMLElement) : option HTMLElement :=
  let currentIndex := indexOf current focusableElements in
  or_else (at_index focusableElements (currentIndex - 1))
          (at_index focusableElements (array_length focusableElements - 1)).

(** An integer index or [NaN]. *)
Inductive index :=
| Index (z : Z)
| NaNIndex.

(** [a % n] on integers: the remainder has the sign of [a]; [a % 0] is
    [NaN]. *)
Definition js_rem (a n : Z) : index :=
  if n =? 0 then NaNIndex else Index (Z.rem a n).

Definition at_jsindex (l : list HTMLElement) (i : index) : option HTMLElement :=
  match i with
  | Index z => at_index l z
  | NaNIndex => None
  end.

(** What a handled key does: [e.preventDefault()], [onIndexChange(newIndex)]
    and [items[newIndex]?.focus()]. *)
Record Navigated := {
  newIndex : index;          (* the argument of onIndexChange *)
  focused : option HTMLElement  (* the element focused, if any *)
}.

(** [keyboardUtils.handleArrowNavigation], applied to [e.key]: [None] is the
    [default] branch, which returns before anything is called. *)
Definition handleArrowNavigation (key : string) (items : list HTMLElement)
    (currentIndex : Z) : option Navigated :=
  let go (i : index) := Some {| newIndex := i; focused := at_jsindex items i |} in
  if (String.eqb key "ArrowDown" || String.eqb key "ArrowRight")%bool then
    go (js_rem (currentIndex + 1) (array_length items))
  else if (String.eqb key "ArrowUp" || String.eqb key "ArrowLeft")%bool then
    go (Index (if currentIndex =? 0 then array_length items - 1
               else currentIndex - 1))
  else if String.eqb key "Home" then go (Index 0)
  else if String.eqb key "End" then go (Index (array_length items - 1))
  else None.

Inductive Level := AA | AAA.
Inductive Size := normal | large.

(** The table [requirements] of [contrastUtils.meetsWCAG]. *)
Definition requirement (level : Level) (size : Size) : Q :=
  match level, size with
  | AA, normal => 45 # 10
  | AA, large => 3
  | AAA, normal => 7
  | AAA, large => 45 # 10
  end.

Definition meetsWCAG (ratio : Q) (level : Level) (size : Size) : bool :=
  Qle_bool (requirement level size) ratio.

Section Contrast.

(** [contrastUtils.getLuminance], which raises to the power 2.4, is left
    abstract. *)
Variable getLuminance : Q -> Q -> Q -> Q.

Definition getContrastRatio (color1 color2 : Q * Q * Q) : Q :=
  let '(r1, g1, b1) := color1 in
  let '(r2, g2, b2) := color2 in
  let lum1 := getLuminance r1 g1 b1 in
  let lum2 := getLuminance r2 g2 b2 in
  let brightest := Qmax lum1 lum2 in
  let darkest := Qmin lum1 lum2 in
  ((brightest + (5 # 100)) / (darkest + (5 # 100)))%Q.

End Contrast.

End Accessibility.

Module ProjectModal.

Local Open Scope Z_scope.

(** [nextImage] and [prevImage]: the updaters given to
    [setCurrentImageIndex], for a project with [images] images. *)
Definition nextImage (images : nat) (prev : Z) : Z :=
  if prev =? Z.of_nat images - 1 then 0 else prev + 1.

Definition prevImage (images : nat) (prev : Z) : Z :=
  if prev =? 0 then Z.of_nat images - 1 else prev - 1.

(** [n] clicks on a button. *)
Fixpoint clicks (f : Z -> Z) (n : nat) (i : Z) : Z :=
  match n with
  | O => i
  | S k => clicks f k (f i)
  end.

End ProjectModal.

Module OptimizedImage.

(** The props [src] and [fallbackSrc] that [handleError] reads. *)
Record Props := { src : string; fallbackSrc : option string }.

Record State := {
  isLoading : bool;      (* useState(true) *)
  hasError : bool;       (* useState(false) *)
  currentSrc : string    (* useState(src) *)
}.

Definition initial (props : Props) : State :=
  {| isLoading := true; hasError := false; currentSrc := src props |}.

(** Truthiness of an optional string: defined and not empty. *)
Definition truthy (s : option string) : bool :=
  match s with
  | Some EmptyString | None => false
  | Some _ => true
  end.

Definition handleLoad (st : State) : State :=
  {| isLoading := false; hasError := hasError st; currentSrc := currentSrc st |}.

(** [handleError]: the state after its updates are applied in order. *)
Definition handleError (props : Props) (st : State) : State :=
  match fallbackSrc props with
  | Some fallback =>
      if (truthy (Some fallback) && negb (String.eqb (currentSrc st) fallback))%bool
      then {| isLoading := true; hasError := false; currentSrc := fallback |}
      else {| isLoading := false; hasError := true; currentSrc := currentSrc st |}
  | None => {| isLoading := false; hasError := true; currentSrc := currentSrc st |}
  end.

(** Whether the "Image not available" panel is rendered:
    [hasError && !fallbackSrc]. *)
Definition showsErrorPanel (props : Props) (st : State) : bool :=
  (hasError st && negb (truthy (fallbackSrc props)))%bool.

Inductive ImageEvent := Load | Error.

Definition handle (props : Props) (st : State) (e : ImageEvent) : State :=
  match e with
  | Load => handleLoad st
  | Error => handleError props st
  end.

End OptimizedImage.

Module Hero.

(** The typing animation of the title.  A string stands for its sequence of
    code units; a timer is represented by the delay it was set with, and runs
    when the event [tick] says so. *)
Record AnimationConfig := { typingSpeed : Q; typingDelay : Q }.

Definition defaultAnimationConfig : AnimationConfig :=
  {| typingSpeed := 50; typingDelay := 1000 |}.

Record State := {
  displayedTitle : string;   (* useState('') *)
  isTypingComplete : bool;   (* useState(false) *)
  isClient : bool;           (* useState(false) *)
  currentIndex : nat;        (* the variable of the running effect *)
  timeoutId : option Q       (* the pending timer of the running effect *)
}.

Definition initial : State :=
  {| displayedTitle := ""; isTypingComplete := false; isClient := false;
     currentIndex := 0; timeoutId := None |}.

(** [typeTitle], the callback of the timers. *)
Definition typeTitle (title : string) (config : AnimationConfig) (st : State)
    : State :=
  if Nat.ltb (currentIndex st) (String.length title) then
    {| displayedTitle := substring 0 (currentIndex st + 1) title;
       isTypingComplete := isTypingComplete st;
       isClient := isClient st;
       currentIndex := S (currentIndex st);
       timeoutId := Some (typingSpeed config) |}
  else
    {| displayedTitle := displayedTitle st;
       isTypingComplete := true;
       isClient := isClient st;
       currentIndex := currentIndex st;
       timeoutId := None |}.

(** One run of the typing effect, after the cleanup of the previous run. *)
Definition typingEffect (config : AnimationConfig) (st : State) : State :=
  if isClient st then
    {| displayedTitle := displayedTitle st;
       isTypingComplete := isTypingComplete st;
       isClient := true;
       currentIndex := 0;
       timeoutId := Some (typingDelay config) |}
  else
    {| displayedTitle := displayedTitle st;
       isTypingComplete := isTypingComplete st;
       isClient := false;
       currentIndex := currentIndex st;
       timeoutId := None |}.

Definition setIsClient (v : bool) (st : State) : State :=
  {| displayedTitle := displayedTitle st;
     isTypingComplete := isTypingComplete st;
     isClient := v;
     currentIndex := currentIndex st;
     timeoutId := timeoutId st |}.

(** Mounting: both effects run on the first render, where [isClient] is
    false; the first sets it, and the render that follows runs the typing
    effect again. *)
Definition mount (config : AnimationConfig) : State :=
  typingEffect config (setIsClient true (typingEffect config initial)).

(** The pending timer runs. *)
Definition tick (title : string) (config : AnimationConfig) (st : State) : State :=
  match timeoutId st with
  | Some _ => typeTitle title config st
  | None => st
  end.

Fixpoint ticks (title : string) (config : AnimationConfig) (n : nat)
    (st : State) : State :=
  match n with
  | O => st
  | S k => ticks title config k (tick title config st)
  end.

(** While typing: [k] characters are shown and a timer is pending. *)
Definition typing (title : string) (k : nat) (st : State) : Prop :=
  displayedTitle st = substring 0 k title /\
  isTypingComplete st = false /\
  currentIndex st = k /\
  timeoutId st <> None.

End Hero.

Module Portfolio.

(** The fields of the portfolio data that the helpers below read. *)
Record Skill := { skill_name : string; level : Z }.

Record SkillCategory := { category_name : string; skills : list Skill }.

Record Project := {
  title : string;
  description : string;
  technologies : list string;
  liveUrl : option string;
  githubUrl : option string;
  featured : bool
}.

Record PortfolioData := {
  projects : list Project;
  skillCategories : list SkillCategory   (* the field [skills] *)
}.

Section Helpers.

(** [portfolioData], imported by utils/portfolioHelpers.ts. *)
Variable portfolioData : PortfolioData.

(** [String.prototype.toLowerCase] and [includes]. *)
Variable toLowerCase : string -> string.
Variable includes : string -> string -> bool.

Definition getFeaturedProjects : list Project :=
  filter featured (projects portfolioData).

Definition getProjectsByTechnology (technology : string) : list Project :=
  filter (fun project =>
            existsb (fun tech => includes (toLowerCase tech)
                                          (toLowerCase technology))
                    (technologies project))
         (projects portfolioData).

(** A flattened skill: the skill and [categoryName]. *)
Definition getAllSkillsFlattened : list (Skill * string) :=
  flat_map (fun category =>
              map (fun skill => (skill, category_name category))
                  (skills category))
           (skillCategories portfolioData).

Definition getSkillsByLevel (l : Z) : list (Skill * string) :=
  filter (fun skill => Z.eqb (level (fst skill)) l) getAllSkillsFlattened.

Definition getExpertSkills : list (Skill * string) := getSkillsByLevel 5.

Definition searchProjects (keyword : string) : list Project :=
  let searchTerm := toLowerCase keyword in
  filter (fun project =>
            includes (toLowerCase (title project)) searchTerm
            || includes (toLowerCase (description project)) searchTerm
            || existsb (fun tech => includes (toLowerCase tech) searchTerm)
                       (technologies project))%bool
         (projects portfolioData).

(** The counts of [getPortfolioSummary]. *)
Record Summary := {
  totalProjects : nat;
  featuredProjects : nat;
  expertSkills : nat;
  totalSkills : nat
}.

Definition getPortfolioSummary : Summary :=
  {| totalProjects := List.length (projects portfolioData);
     featuredProjects := List.length getFeaturedProjects;
     expertSkills := List.length getExpertSkills;
     totalSkills := List.length getAllSkillsFlattened |}.

(** The section of the page, components/sections/Projects.tsx: the projects
    kept by the technology filter, split into featured and regular ones. *)
Definition filteredProjects (projectList : list Project) (selected : string)
    : list Project :=
  if String.eqb selected "all" then projectList
  else filter (fun project =>
                 existsb (fun tech => includes (toLowerCase tech)
                                               (toLowerCase selected))
                         (technologies project))
              projectList.

Definition featuredCards (projectList : list Project) (selected : string)
    : list Project :=
  filter featured (filteredProjects projectList selected).

Definition regularCards (projectList : list Project) (selected : string)
    : list Project :=
  filter (fun project => negb (featured project))
         (filteredProjects projectList selected).

End Helpers.

(** The counts of [getDataStatistics], utils/dataValidation.ts. *)
Record Statistics := {
  stat_totalProjects : nat;
  stat_featuredProjects : nat;
  stat_totalSkillCategories : nat;
  stat_totalSkills : nat
}.

Definition getDataStatistics (data : PortfolioData) : Statistics :=
  {| stat_totalProjects := List.length (projects data);
     stat_featuredProjects := List.length (filter featured (projects data));
     stat_totalSkillCategories := List.length (skillCategories data);
     stat_totalSkills :=
       fold_left (fun sum category => (sum + List.length (skills category))%nat)
                 (skillCategories data) 0%nat |}.

End Portfolio.

(** Proof automation. *)

(** Splits on every comparison of integers in sight and closes what arithmetic
    closes. *)
Ltac zcompare :=
  repeat match goal with
  | H : context [Z.compare ?a ?b] |- _ =>
      let E := fresh "E" in destruct (Z.compare_spec a b) as [E|E|E]
  | |- context [Z.compare ?a ?b] =>
      let E := fresh "E" in destruct (Z.compare_spec a b) as [E|E|E]
  end; simpl CompOpp in *;
  try discriminate; try congruence; try reflexivity; try lia.

(* ================================================================== *)
(** ** Theorems *)
(* ================================================================== *)

(** *** Order and signs of numbers *)

Module NumberProperties.

Import JS.
Local Open Scope Z_scope.

Lemma scale_split (m e e1 e0 : Z) :
  e0 <= e1 -> e1 <= e -> scale m e e0 = scale m e e1 * 2 ^ (e1 - e0).
Proof.
  intros H0 H1. unfold scale.
  replace (e - e0) with ((e - e1) + (e1 - e0)) by lia.
  rewrite Z.pow_add_r by lia. ring.
Qed.

Lemma compareFinite_at (m1 e1 m2 e2 e0 : Z) :
  e0 <= e1 -> e0 <= e2 ->
  compareFinite m1 e1 m2 e2 = (scale m1 e1 e0 ?= scale m2 e2 e0).
Proof.
  intros H1 H2. unfold compareFinite.
  rewrite (scale_split m1 e1 (Z.min e1 e2) e0) by lia.
  rewrite (scale_split m2 e2 (Z.min e1 e2) e0) by lia.
  assert (Hp : 0 < 2 ^ (Z.min e1 e2 - e0)) by (apply Z.pow_pos_nonneg; lia).
  set (k := 2 ^ (Z.min e1 e2 - e0)) in *. clearbody k.
  set (a := scale m1 e1 (Z.min e1 e2)). set (b := scale m2 e2 (Z.min e1 e2)).
  clearbody a b.
  destruct (Z.compare_spec a b) as [E|L|G].
  - subst. symmetry. apply Z.compare_refl.
  - symmetry. apply Z.compare_lt_iff. nia.
  - symmetry. apply Z.compare_gt_iff. nia.
Qed.

Lemma compareValue_antisymmetric (a b : extended) :
  compareValue b a = CompOpp (compareValue a b).
Proof.
  destruct a as [|m1 e1|], b as [|m2 e2|]; try reflexivity.
  simpl. rewrite (compareFinite_at m2 e2 m1 e1 (Z.min e1 e2)) by lia.
  rewrite (compareFinite_at m1 e1 m2 e2 (Z.min e1 e2)) by lia.
  apply Z.compare_antisym.
Qed.

Lemma compareValue_reflexive (a : extended) : compareValue a a = Eq.
Proof.
  destruct a as [|m e|]; try reflexivity. simpl. unfold compareFinite.
  apply Z.compare_refl.
Qed.

(** Three values are ordered as three integers are. *)
Lemma compareValue_order (a b c : extended) :
  exists f : extended -> Z,
    compareValue a b = (f a ?= f b) /\ compareValue b c = (f b ?= f c) /\
    compareValue a c = (f a ?= f c).
Proof.
  set (expo := fun x => match x with Finite _ e => e | _ => 0 end).
  set (e0 := Z.min (expo a) (Z.min (expo b) (expo c))).
  set (mag := fun x => match x with Finite m e => Z.abs (scale m e e0) | _ => 0 end).
  set (B := 1 + mag a + mag b + mag c).
  set (f := fun x => match x with
                     | NegInfinity => - B | PosInfinity => B
                     | Finite m e => scale m e e0
                     end).
  set (ok := fun x => e0 <= expo x /\ mag x < B).
  assert (HB : 0 < B).
  { unfold B. assert (forall x, 0 <= mag x) by (intros [| |]; simpl; lia).
    pose proof (H a). pose proof (H b). pose proof (H c). lia. }
  assert (Hpair : forall x y, ok x -> ok y -> compareValue x y = (f x ?= f y)).
  { intros [|m1 e1|] [|m2 e2|] [Hx1 Hx2] [Hy1 Hy2]; simpl in *;
      try (symmetry; first [apply Z.compare_eq_iff | apply Z.compare_lt_iff
                           | apply Z.compare_gt_iff]; lia).
    apply compareFinite_at; assumption. }
  assert (Hmag : forall x, 0 <= mag x) by (intros [| |]; simpl; lia).
  pose proof (Hmag a). pose proof (Hmag b). pose proof (Hmag c).
  assert (Ha : ok a) by (unfold ok, B, e0; lia).
  assert (Hb : ok b) by (unfold ok, B, e0; lia).
  assert (Hc : ok c) by (unfold ok, B, e0; lia).
  exists f. repeat split; apply Hpair; assumption.
Qed.

Lemma compare_NaN_r (x : number) : compare x NaN = None.
Proof. unfold compare. destruct (value x); reflexivity. Qed.

Lemma compare_NaN_l (x : number) : compare NaN x = None.
Proof. reflexivity. Qed.

Lemma value_None (x : number) : value x = None <-> x = NaN.
Proof.
  unfold NaN. destruct x as [s|s| |s m e]; simpl; try destruct s;
    split; congruence.
Qed.

Lemma compare_reflexive (x : number) : x <> NaN -> compare x x = Some Eq.
Proof.
  intros H. unfold compare. destruct (value x) eqn:E.
  - rewrite compareValue_reflexive. reflexivity.
  - apply value_None in E. contradiction.
Qed.

Lemma compare_antisymmetric (x y : number) :
  compare y x = option_map CompOpp (compare x y).
Proof.
  unfold compare. destruct (value x), (value y); simpl; try reflexivity.
  rewrite compareValue_antisymmetric. reflexivity.
Qed.

Lemma gt_NaN (x : number) : gt NaN x = false.
Proof. reflexivity. Qed.

Lemma gt_NaN_r (x : number) : gt x NaN = false.
Proof. unfold gt. rewrite compare_NaN_r. reflexivity. Qed.

(** [x > y > z] gives [x > z]. *)
Lemma gt_transitive (x y z : number) :
  gt x y = true -> gt y z = true -> gt x z = true.
Proof.
  unfold gt, compare.
  destruct (value x) as [a|], (value y) as [b|], (value z) as [c|];
    try discriminate.
  destruct (compareValue_order a b c) as (f & -> & -> & ->).
  zcompare.
Qed.

(** [v <= m <= m'] gives [v <= m'], where [<=] is "not greater". *)
Lemma not_gt_trans (v m m' : number) :
  gt v m = false -> gt m m' = false -> m <> NaN -> gt v m' = false.
Proof.
  unfold gt, compare. intros H1 H2 Hm.
  destruct (value m) as [b|] eqn:Eb; [|apply value_None in Eb; contradiction].
  destruct (value v) as [a|], (value m') as [c|]; try reflexivity.
  destruct (compareValue_order a b c) as (f & E1 & E2 & E3).
  rewrite E1 in H1. rewrite E2 in H2. rewrite E3.
  zcompare.
Qed.

(** [v <= m < m'] gives [v < m'], unless [v] is [NaN]. *)
Lemma not_gt_gt (v m m' : number) :
  gt v m = false -> gt m' m = true -> v = NaN \/ gt m' v = true.
Proof.
  unfold gt, compare. intros H1 H2.
  destruct (value v) as [a|] eqn:Ea; [|left; apply value_None, Ea].
  right.
  destruct (value m) as [b|], (value m') as [c|]; try discriminate.
  destruct (compareValue_order a b c) as (f & E1 & E2 & E3).
  rewrite (compareValue_antisymmetric b c), E2 in H2.
  rewrite (compareValue_antisymmetric a c), E3. rewrite E1 in H1.
  zcompare.
Qed.

(** [m < v] and [v <= m'] give [m <= m']. *)
Lemma gt_not_gt (v m m' : number) :
  gt v m = true -> gt v m' = false -> gt m m' = false.
Proof.
  unfold gt, compare. intros H1 H2.
  destruct (value v) as [a|], (value m) as [b|]; try discriminate.
  destruct (value m') as [c|]; [|reflexivity].
  destruct (compareValue_order a b c) as (f & E1 & E2 & E3).
  rewrite E1 in H1. rewrite E3 in H2. rewrite E2.
  zcompare.
Qed.

Lemma gt_irreflexive (x : number) : gt x x = false.
Proof.
  unfold gt, compare. destruct (value x); [|reflexivity].
  rewrite compareValue_reflexive. reflexivity.
Qed.

Lemma gt_not_NaN (x y : number) : gt x y = true -> x <> NaN /\ y <> NaN.
Proof.
  unfold gt, compare. intros H.
  split; intros ->; [discriminate|].
  unfold NaN in H. simpl in H. destruct (value x); discriminate.
Qed.

(** *** Signs of the rounded results *)

Lemma shl_align_scale (s : bool) (m : positive) (e ez : Z) :
  ez <= e ->
  cond_Zopp s (Zpos (fst (shl_align m e ez))) = scale (cond_Zopp s (Zpos m)) e ez.
Proof.
  intros Hle. unfold shl_align, scale.
  destruct (ez - e) as [|d|d] eqn:E; try lia.
  - simpl fst. replace (e - ez) with 0 by lia. rewrite Z.mul_1_r. reflexivity.
  - simpl fst. replace (e - ez) with (Zpos d) by lia.
    change (Pos.iter xO m d) with (shift_pos d m).
    rewrite shift_pos_correct.
    change (2 ^ Zpos d) with (Zpower_pos 2 d).
    generalize (Zpower_pos 2 d). intros k.
    destruct s; unfold cond_Zopp; lia.
Qed.

Lemma binary_round_aux_sign (s : bool) (mx ex : Z) (lx : location) :
  sign (binary_round_aux prec emax s mx ex lx) = None \/
  sign (binary_round_aux prec emax s mx ex lx) = Some s.
Proof.
  unfold binary_round_aux.
  destruct (shr_fexp prec emax mx ex lx) as [mrs' e'].
  destruct (shr_fexp prec emax _ e' loc_Exact) as [mrs'' e''].
  destruct (shr_m mrs''); [right; reflexivity| |left; reflexivity].
  destruct (Z.leb e'' (emax - prec)); right; reflexivity.
Qed.

Lemma binary_normalize_sign (z e : Z) :
  let r := binary_normalize prec emax z e false in
  match z with
  | Z0 => r = S754_zero false
  | Zpos _ => sign r = None \/ sign r = Some false
  | Zneg _ => sign r = None \/ sign r = Some true
  end.
Proof.
  destruct z as [|p|p]; simpl; [reflexivity| |];
    unfold binary_round;
    destruct (shl_align p e _) as [mz ez]; apply binary_round_aux_sign.
Qed.

Lemma scale_sign (m e e' : Z) : e' <= e ->
  (0 < m -> 0 < scale m e e') /\ (m < 0 -> scale m e e' < 0) /\
  (m = 0 -> scale m e e' = 0).
Proof.
  intros H. unfold scale.
  assert (0 < 2 ^ (e - e')) by (apply Z.pow_pos_nonneg; lia).
  repeat split; intros; nia.
Qed.

(** A number greater than zero has sign bit [false]; one smaller than zero
    has sign bit [true]. *)
Lemma gt_zero_sign (r : number) (s0 : bool) :
  gt r (S754_zero s0) = true -> sign r = Some false.
Proof.
  unfold gt, compare.
  destruct r as [s|s| |s m e]; simpl.
  - unfold compareFinite. simpl. discriminate.
  - destruct s; [discriminate|reflexivity].
  - discriminate.
  - destruct s; [|reflexivity].
    rewrite (compareFinite_at _ _ _ _ (Z.min e 0)) by lia.
    destruct (scale_sign (Zneg m) e (Z.min e 0)) as (_ & Hn & _); [lia|].
    destruct (scale_sign 0 0 (Z.min e 0)) as (_ & _ & Hz); [lia|].
    simpl cond_Zopp. rewrite (Hz eq_refl). specialize (Hn eq_refl).
    zcompare.
Qed.

Lemma lt_zero_sign (r : number) (s0 : bool) :
  lt r (S754_zero s0) = true -> sign r = Some true.
Proof.
  unfold lt, compare.
  destruct r as [s|s| |s m e]; simpl.
  - unfold compareFinite. simpl. discriminate.
  - destruct s; [reflexivity|discriminate].
  - discriminate.
  - destruct s; [reflexivity|].
    rewrite (compareFinite_at _ _ _ _ (Z.min e 0)) by lia.
    destruct (scale_sign (Zpos m) e (Z.min e 0)) as (Hp & _ & _); [lia|].
    destruct (scale_sign 0 0 (Z.min e 0)) as (_ & _ & Hz); [lia|].
    simpl cond_Zopp. rewrite (Hz eq_refl). specialize (Hp eq_refl).
    zcompare.
Qed.

Lemma not_positive (r : number) (s0 : bool) :
  sign r <> Some false -> gt r (S754_zero s0) = false.
Proof.
  intros H. destruct (gt r (S754_zero s0)) eqn:E; [|reflexivity].
  apply gt_zero_sign in E. contradiction.
Qed.

Lemma not_negative (r : number) (s0 : bool) :
  sign r <> Some true -> lt r (S754_zero s0) = false.
Proof.
  intros H. destruct (lt r (S754_zero s0)) eqn:E; [|reflexivity].
  apply lt_zero_sign in E. contradiction.
Qed.

Lemma gt_zero_zero (s s0 : bool) : gt (S754_zero s) (S754_zero s0) = false.
Proof. reflexivity. Qed.

(** The difference of [x] and [y] is not greater than zero unless [x] is
    greater than [y]. *)
Lemma sub_not_positive (x y : number) (s0 : bool) :
  compare x y <> Some Gt -> gt (sub x y) (S754_zero s0) = false.
Proof.
  intros H.
  destruct x as [sx|sx| |sx mx ex], y as [sy|sy| |sy my ey];
    try reflexivity;
    try (destruct sx, sy; try reflexivity; exfalso; apply H; reflexivity);
    try (destruct sx; try reflexivity; exfalso; apply H; reflexivity);
    try (destruct sy; try reflexivity; exfalso; apply H; reflexivity).
  - (* zero - finite *)
    unfold compare in H. simpl in H.
    rewrite (compareFinite_at _ _ _ _ (Z.min ey 0)) in H by lia.
    destruct sy.
    + exfalso. apply H.
      destruct (scale_sign (Zneg my) ey (Z.min ey 0)) as (_ & Hn & _); [lia|].
      destruct (scale_sign 0 0 (Z.min ey 0)) as (_ & _ & Hz); [lia|].
      simpl cond_Zopp. rewrite (Hz eq_refl). specialize (Hn eq_refl).
      f_equal. apply Z.compare_gt_iff. lia.
    + apply not_positive. simpl. discriminate.
  - (* finite - zero *)
    unfold compare in H. simpl in H.
    rewrite (compareFinite_at _ _ _ _ (Z.min ex 0)) in H by lia.
    destruct sx.
    + apply not_positive. simpl. discriminate.
    + exfalso. apply H.
      destruct (scale_sign (Zpos mx) ex (Z.min ex 0)) as (Hp & _ & _); [lia|].
      destruct (scale_sign 0 0 (Z.min ex 0)) as (_ & _ & Hz); [lia|].
      simpl cond_Zopp. rewrite (Hz eq_refl). specialize (Hp eq_refl).
      f_equal. apply Z.compare_gt_iff. lia.
  - (* finite - finite *)
    unfold compare in H. simpl in H.
    rewrite (compareFinite_at _ _ _ _ (Z.min ex ey)) in H by lia.
    unfold sub, SFsub.
    rewrite (shl_align_scale sx mx ex (Z.min ex ey)) by lia.
    rewrite (shl_align_scale sy my ey (Z.min ex ey)) by lia.
    set (a := scale (cond_Zopp sx (Zpos mx)) ex (Z.min ex ey)) in *.
    set (b := scale (cond_Zopp sy (Zpos my)) ey (Z.min ex ey)) in *.
    assert (Hle : a - b <= 0).
    { destruct (Z.compare_spec a b); try lia. exfalso. apply H. reflexivity. }
    pose proof (binary_normalize_sign (a - b) (Z.min ex ey)) as Hs.
    cbv zeta in Hs.
    destruct (a - b) as [|p|p] eqn:E; try lia.
    + rewrite Hs. reflexivity.
    + apply not_positive. destruct Hs as [-> | ->]; discriminate.
Qed.

Lemma add_zero_value (x : number) (s : bool) :
  value (add x (S754_zero s)) = value x.
Proof. destruct x as [sx|sx| |sx mx ex]; try reflexivity. destruct sx, s; reflexivity. Qed.

Lemma compare_value_l (x x' y : number) :
  value x = value x' -> compare x y = compare x' y.
Proof. unfold compare. intros ->. reflexivity. Qed.

Lemma compare_value_r (x y y' : number) :
  value y = value y' -> compare x y = compare x y'.
Proof. unfold compare. intros ->. reflexivity. Qed.

(** [x <= y <= z] gives [x <= z] when [y] is a number. *)
Lemma compare_transitive (x y z : number) :
  compare x y <> Some Gt -> compare y z <> Some Gt -> y <> NaN ->
  compare x z <> Some Gt.
Proof.
  unfold compare. intros H1 H2 Hy.
  destruct (value y) as [b|] eqn:Eb; [|apply value_None in Eb; contradiction].
  destruct (value x) as [a|], (value z) as [c|]; try discriminate.
  destruct (compareValue_order a b c) as (f & E1 & E2 & E3).
  rewrite E1 in H1. rewrite E2 in H2. rewrite E3.
  intros H3. zcompare.
Qed.

Lemma min_not_greater_l (x y : number) : compare (min x y) x <> Some Gt.
Proof.
  unfold min. destruct (compare x y) as [[| |]|] eqn:E.
  - assert (Hx : x <> NaN) by (intros ->; discriminate).
    destruct x as [sx|sx| |sx mx ex], y as [sy|sy| |sy my ey];
      try (rewrite compare_reflexive by assumption; discriminate).
    discriminate.
  - rewrite compare_reflexive; [discriminate|]. intros ->. discriminate.
  - rewrite compare_antisymmetric, E. discriminate.
  - discriminate.
Qed.

Lemma max_not_smaller_l (x y : number) : compare x (max x y) <> Some Gt.
Proof.
  unfold max. destruct (compare x y) as [[| |]|] eqn:E.
  - assert (Hx : x <> NaN) by (intros ->; discriminate).
    destruct x as [sx|sx| |sx mx ex], y as [sy|sy| |sy my ey];
      try (rewrite compare_reflexive by assumption; discriminate).
    discriminate.
  - rewrite E. discriminate.
  - rewrite compare_reflexive; [discriminate|]. intros ->. discriminate.
  - rewrite compare_NaN_r. discriminate.
Qed.

Lemma max_NaN_l (y : number) : max NaN y = NaN.
Proof. reflexivity. Qed.

(** [Math.max(0, d)] is zero, [NaN], or [d] when [d] is positive. *)
Lemma max_zero_cases (d : number) :
  max (S754_zero false) d = S754_zero false \/
  max (S754_zero false) d = NaN \/
  (max (S754_zero false) d = d /\ gt d (S754_zero false) = true).
Proof.
  unfold max. destruct (compare (S754_zero false) d) as [[| |]|] eqn:E.
  - left. destruct d; reflexivity.
  - right; right. split; [reflexivity|].
    unfold gt. rewrite compare_antisymmetric, E. reflexivity.
  - left. reflexivity.
  - right; left. reflexivity.
Qed.

Lemma div_NaN_r (x : number) : div x NaN = NaN.
Proof. destruct x; reflexivity. Qed.

Lemma div_zero_zero (s s' : bool) : div (S754_zero s) (S754_zero s') = NaN.
Proof. reflexivity. Qed.

Lemma div_sign (x y : number) :
  sign x = Some false -> sign y = Some false -> (forall s, y <> S754_zero s) ->
  sign (div x y) <> Some true.
Proof.
  intros Hx Hy Hz.
  destruct x as [sx|sx| |sx mx ex], y as [sy|sy| |sy my ey];
    simpl in Hx, Hy; try discriminate;
    try (exfalso; eapply Hz; reflexivity);
    injection Hx as ->; injection Hy as ->; try (simpl; discriminate).
  unfold div, SFdiv.
  destruct (SFdiv_core_binary prec emax (Zpos mx) ex (Zpos my) ey) as [[mz ez] lz].
  destruct (binary_round_aux_sign (xorb false false) mz ez lz) as [-> | ->];
    discriminate.
Qed.

Lemma min_not_greater_r (x y : number) : compare (min x y) y <> Some Gt.
Proof.
  unfold min. destruct (compare x y) as [[| |]|] eqn:E.
  - destruct x as [sx|sx| |sx mx ex], y as [sy|sy| |sy my ey];
      try (rewrite E; discriminate).
    discriminate.
  - rewrite E. discriminate.
  - rewrite compare_reflexive; [discriminate|].
    intros ->. rewrite compare_NaN_r in E. discriminate.
  - discriminate.
Qed.

Lemma max_not_smaller_r (x y : number) : compare y (max x y) <> Some Gt.
Proof.
  unfold max. destruct (compare x y) as [[| |]|] eqn:E.
  - destruct x as [sx|sx| |sx mx ex], y as [sy|sy| |sy my ey];
      try (rewrite compare_antisymmetric, E; discriminate).
    discriminate.
  - rewrite compare_reflexive; [discriminate|].
    intros ->. rewrite compare_NaN_r in E. discriminate.
  - rewrite compare_antisymmetric, E. discriminate.
  - rewrite compare_NaN_r. discriminate.
Qed.

Lemma min_not_NaN (x y : number) : min x y <> NaN -> x <> NaN /\ y <> NaN.
Proof.
  unfold min. intros H. split; intros ->.
  - apply H. reflexivity.
  - rewrite compare_NaN_r in H. apply H. reflexivity.
Qed.

Lemma max_not_NaN (x y : number) : max x y <> NaN -> x <> NaN /\ y <> NaN.
Proof.
  unfold max. intros H. split; intros ->.
  - apply H. reflexivity.
  - rewrite compare_NaN_r in H. apply H. reflexivity.
Qed.

(** [x > y >= z] gives [x > z], and [z >= x > y] gives [z > y]. *)
Lemma gt_not_smaller (x y z : number) :
  gt x y = true -> compare z y <> Some Gt -> z <> NaN -> gt x z = true.
Proof.
  unfold gt, compare. intros H1 H2 Hz.
  destruct (value z) as [c|] eqn:Ec; [|apply value_None in Ec; contradiction].
  destruct (value x) as [a|], (value y) as [b|]; try discriminate.
  destruct (compareValue_order a b c) as (f & E1 & E2 & E3).
  rewrite E1 in H1. rewrite (compareValue_antisymmetric b c), E2 in H2.
  rewrite E3. zcompare.
Qed.

Lemma not_smaller_gt (x y z : number) :
  compare x z <> Some Gt -> gt x y = true -> z <> NaN -> gt z y = true.
Proof.
  unfold gt, compare. intros H1 H2 Hz.
  destruct (value z) as [c|] eqn:Ec; [|apply value_None in Ec; contradiction].
  destruct (value x) as [a|], (value y) as [b|]; try discriminate.
  destruct (compareValue_order a b c) as (f & E1 & E2 & E3).
  rewrite E1 in H2. rewrite E3 in H1.
  rewrite (compareValue_antisymmetric b c), E2.
  zcompare.
Qed.

(** The sign of a quotient is the product of the signs. *)
Lemma div_sign_xor (x y : number) (sx sy : bool) :
  sign x = Some sx -> sign y = Some sy ->
  sign (div x y) = None \/ sign (div x y) = Some (xorb sx sy).
Proof.
  intros Hx Hy.
  destruct x as [s|s| |s mx ex], y as [s'|s'| |s' my ey];
    simpl in Hx, Hy; try discriminate;
    injection Hx as ->; injection Hy as ->;
    try (left; reflexivity); try (right; reflexivity).
  unfold div, SFdiv.
  destruct (SFdiv_core_binary prec emax (Zpos mx) ex (Zpos my) ey) as [[mz ez] lz].
  apply binary_round_aux_sign.
Qed.

Lemma div_zero_l (s : bool) (y : number) :
  gt (div (S754_zero s) y) (S754_zero false) = false.
Proof. destruct y as [s'|s'| |s' my ey]; reflexivity. Qed.

Lemma div_NaN_l (y : number) : div NaN y = NaN.
Proof. reflexivity. Qed.

(** A number with sign bit [false] that is not a zero is greater than
    zero. *)
Lemma positive_sign (y : number) (s0 : bool) :
  sign y = Some false -> (forall s, y <> S754_zero s) ->
  gt y (S754_zero s0) = true.
Proof.
  intros Hs Hz. destruct y as [s|s| |s m e]; simpl in Hs; try discriminate;
    injection Hs as ->.
  - exfalso. eapply Hz. reflexivity.
  - reflexivity.
  - unfold gt, compare. simpl.
    rewrite (compareFinite_at _ _ _ _ (Z.min e 0)) by lia.
    destruct (scale_sign (Zpos m) e (Z.min e 0)) as (Hp & _ & _); [lia|].
    destruct (scale_sign 0 0 (Z.min e 0)) as (_ & _ & H0); [lia|].
    rewrite (H0 eq_refl). specialize (Hp eq_refl).
    destruct (Z.compare_spec (scale (Zpos m) e (Z.min e 0)) 0);
      solve [reflexivity | lia].
Qed.

(** The difference of [x] and [y] is greater than zero only if [x] is
    greater than [y]. *)
Lemma sub_positive (x y : number) (s0 : bool) :
  gt (sub x y) (S754_zero s0) = true -> gt x y = true.
Proof.
  intros H. unfold gt. destruct (compare x y) as [[| |]|] eqn:E;
    try reflexivity;
    rewrite sub_not_positive in H by (rewrite E; discriminate); discriminate.
Qed.


(** [h === 0] holds of the two zeros only. *)
Lemma eqb_zero (h : number) :
  eqb h (ofZ 0) = true <-> exists s, h = S754_zero s.
Proof.
  split.
  - unfold eqb, compare. destruct h as [s|s| |s m e]; simpl.
    + intros _. exists s. reflexivity.
    + destruct s; discriminate.
    + discriminate.
    + rewrite (compareFinite_at _ _ _ _ (Z.min e 0)) by lia.
      destruct (scale_sign (cond_Zopp s (Zpos m)) e (Z.min e 0))
        as (Hp & Hn & _); [lia|].
      destruct (scale_sign 0 0 (Z.min e 0)) as (_ & _ & Hz); [lia|].
      rewrite (Hz eq_refl).
      destruct s; simpl cond_Zopp in *.
      * specialize (Hn eq_refl).
        destruct (Z.compare_spec (scale (Zneg m) e (Z.min e 0)) 0);
          try discriminate; lia.
      * specialize (Hp eq_refl).
        destruct (Z.compare_spec (scale (Zpos m) e (Z.min e 0)) 0);
          try discriminate; lia.
  - intros [s ->]. reflexivity.
Qed.

(** A number that is not smaller than zero is [NaN], a zero, or has sign bit
    [false]. *)
Lemma not_lt_zero_sign (h : number) :
  lt h (ofZ 0) = false ->
  h = NaN \/ (exists s, h = S754_zero s) \/ sign h = Some false.
Proof.
  intros Hh. destruct h as [s|s| |s m e].
  - right; left. exists s. reflexivity.
  - destruct s; [discriminate|right; right; reflexivity].
  - left. reflexivity.
  - destruct s; [|right; right; reflexivity].
    exfalso. unfold lt, compare in Hh. simpl in Hh.
    rewrite (compareFinite_at _ _ _ _ (Z.min e 0)) in Hh by lia.
    destruct (scale_sign (Zneg m) e (Z.min e 0)) as (_ & Hn & _); [lia|].
    destruct (scale_sign 0 0 (Z.min e 0)) as (_ & _ & Hz); [lia|].
    rewrite (Hz eq_refl) in Hh. specialize (Hn eq_refl).
    destruct (Z.compare_spec (scale (Zneg m) e (Z.min e 0)) 0);
      try discriminate; lia.
Qed.

(** *** Agreement with the comparison of the Standard Library *)

Lemma digits2_pos_bounds (m : positive) :
  2 ^ (Zpos (digits2_pos m) - 1) <= Zpos m < 2 ^ Zpos (digits2_pos m).
Proof.
  induction m as [p IH|p IH|]; simpl digits2_pos.
  - rewrite Pos2Z.inj_succ.
    replace (Z.succ (Zpos (digits2_pos p)) - 1)
      with (Z.succ (Zpos (digits2_pos p) - 1)) by lia.
    rewrite !Z.pow_succ_r by lia. lia.
  - rewrite Pos2Z.inj_succ.
    replace (Z.succ (Zpos (digits2_pos p)) - 1)
      with (Z.succ (Zpos (digits2_pos p) - 1)) by lia.
    rewrite !Z.pow_succ_r by lia. lia.
  - simpl. lia.
Qed.

(** A mantissa in normal form has 53 bits, or fewer at the least exponent. *)
Lemma bounded_mantissa (m : positive) (e : Z) :
  bounded prec emax m e = true ->
  -1074 <= e /\ Zpos m < 2 ^ 53 /\ (-1074 < e -> 2 ^ 52 <= Zpos m).
Proof.
  unfold bounded, canonical_mantissa, fexp, emin, prec, emax.
  intros H. apply andb_true_iff in H as [H _]. apply Z.eqb_eq in H.
  pose proof (digits2_pos_bounds m) as [Hlo Hhi].
  set (d := Zpos (digits2_pos m)) in *.
  assert (Hd : 0 < d) by (unfold d; lia).
  assert (Hcase : (d = 53 /\ -1074 <= e) \/ (e = -1074 /\ d <= 53)) by lia.
  split; [lia|]. split.
  - apply Z.lt_le_trans with (2 ^ d); [exact Hhi|].
    apply Z.pow_le_mono_r; lia.
  - intros He. assert (d = 53) by lia. subst d. rewrite H0 in Hlo. exact Hlo.
Qed.

Lemma compareFinite_bounded (m1 m2 : positive) (e1 e2 : Z) :
  bounded prec emax m1 e1 = true -> bounded prec emax m2 e2 = true ->
  compareFinite (Zpos m1) e1 (Zpos m2) e2 =
  match Z.compare e1 e2 with
  | Lt => Lt
  | Gt => Gt
  | Eq => Pos.compare_cont Eq m1 m2
  end.
Proof.
  intros H1 H2.
  destruct (bounded_mantissa m1 e1 H1) as (He1 & Hm1 & Hn1).
  destruct (bounded_mantissa m2 e2 H2) as (He2 & Hm2 & Hn2).
  unfold compareFinite, scale.
  destruct (Z.compare_spec e1 e2) as [E|E|E].
  - subst e2. rewrite Z.min_id, Z.sub_diag, !Z.mul_1_r. reflexivity.
  - rewrite Z.min_l by lia. rewrite Z.sub_diag, Z.mul_1_r.
    apply Z.compare_lt_iff.
    assert (2 ^ 1 <= 2 ^ (e2 - e1)) by (apply Z.pow_le_mono_r; lia).
    specialize (Hn2 ltac:(lia)).
    change (2 ^ 1) with 2 in H. change (2 ^ 53) with (2 * 2 ^ 52) in Hm1.
    nia.
  - rewrite Z.min_r by lia. rewrite Z.sub_diag, Z.mul_1_r.
    apply Z.compare_gt_iff.
    assert (2 ^ 1 <= 2 ^ (e1 - e2)) by (apply Z.pow_le_mono_r; lia).
    specialize (Hn1 ltac:(lia)).
    change (2 ^ 1) with 2 in H. change (2 ^ 53) with (2 * 2 ^ 52) in Hm2.
    nia.
Qed.

Lemma compareFinite_opp (m1 e1 m2 e2 : Z) :
  compareFinite (- m1) e1 (- m2) e2 = CompOpp (compareFinite m1 e1 m2 e2).
Proof.
  unfold compareFinite, scale.
  rewrite !Z.mul_opp_l, Z.compare_opp. apply Z.compare_antisym.
Qed.

(** On numbers in normal form ([valid_binary]), [compare] is the [SFcompare]
    of the Standard Library. *)
Lemma compare_SFcompare (x y : number) :
  valid_binary prec emax x = true -> valid_binary prec emax y = true ->
  compare x y = SFcompare x y.
Proof.
  intros Hx Hy.
  destruct x as [sx|sx| |sx mx ex], y as [sy|sy| |sy my ey];
    try reflexivity;
    try (destruct sx; reflexivity); try (destruct sy; reflexivity);
    try (destruct sx, sy; reflexivity).
  - (* zero, finite *)
    unfold compare. simpl. f_equal.
    rewrite (compareFinite_at _ _ _ _ (Z.min ey 0)) by lia.
    destruct (scale_sign 0 0 (Z.min ey 0)) as (_ & _ & Hz); [lia|].
    destruct (scale_sign (cond_Zopp sy (Zpos my)) ey (Z.min ey 0))
      as (Hp & Hn & _); [lia|].
    rewrite (Hz eq_refl).
    destruct sy; simpl cond_Zopp in *.
    + apply Z.compare_gt_iff. apply Hn. lia.
    + apply Z.compare_lt_iff. apply Hp. lia.
  - (* finite, zero *)
    unfold compare. simpl. f_equal.
    rewrite (compareFinite_at _ _ _ _ (Z.min ex 0)) by lia.
    destruct (scale_sign 0 0 (Z.min ex 0)) as (_ & _ & Hz); [lia|].
    destruct (scale_sign (cond_Zopp sx (Zpos mx)) ex (Z.min ex 0))
      as (Hp & Hn & _); [lia|].
    rewrite (Hz eq_refl).
    destruct sx; simpl cond_Zopp in *.
    + apply Z.compare_lt_iff. apply Hn. lia.
    + apply Z.compare_gt_iff. apply Hp. lia.
  - (* finite, finite *)
    simpl in Hx, Hy. unfold compare. simpl value. cbv iota beta.
    unfold compareValue. unfold SFcompare. f_equal.
    destruct sx, sy; simpl cond_Zopp.
    + change (Zneg mx) with (- Zpos mx). change (Zneg my) with (- Zpos my).
      rewrite compareFinite_opp, (compareFinite_bounded _ _ _ _ Hx Hy).
      destruct (ex ?= ey); reflexivity.
    + rewrite (compareFinite_at _ _ _ _ (Z.min ex ey)) by lia.
      destruct (scale_sign (Zneg mx) ex (Z.min ex ey)) as (_ & Hn & _); [lia|].
      destruct (scale_sign (Zpos my) ey (Z.min ex ey)) as (Hp & _ & _); [lia|].
      apply Z.compare_lt_iff. specialize (Hn eq_refl). specialize (Hp eq_refl). lia.
    + rewrite (compareFinite_at _ _ _ _ (Z.min ex ey)) by lia.
      destruct (scale_sign (Zpos mx) ex (Z.min ex ey)) as (Hp & _ & _); [lia|].
      destruct (scale_sign (Zneg my) ey (Z.min ex ey)) as (_ & Hn & _); [lia|].
      apply Z.compare_gt_iff. specialize (Hn eq_refl). specialize (Hp eq_refl). lia.
    + apply compareFinite_bounded; assumption.
Qed.

End NumberProperties.

Import MainLayout.
Import NumberProperties.

Example currentSection_top :
  currentSection {| scrollY := JS.ofZ 0; innerHeight := JS.ofZ 1024;
                    getElementById := stacked (JS.ofZ 1024) |} = hero.
Proof. vm_compute. reflexivity. Qed.

Example currentSection_1200 :
  currentSection {| scrollY := JS.ofZ 1200; innerHeight := JS.ofZ 1024;
                    getElementById := stacked (JS.ofZ 1024) |} = experience.
Proof. vm_compute. reflexivity. Qed.

(** *** Arithmetic of the visibility computation *)

(** What the division of [handleScroll] returns for a height of zero: the
    bottom of the box is its top, so the visible height is zero (or [NaN]),
    and the quotient is [NaN]. *)
Lemma visibility_zero_height (b : Browser) (rect : DOMRect) :
  JS.eqb (rect_height rect) (JS.ofZ 0) = true ->
  visibility b rect = JS.NaN.
Proof.
  intros Hz. apply eqb_zero in Hz as [s Hz].
  unfold visibility. rewrite Hz.
  set (elementTop := JS.add (rect_top rect) (scrollY b)).
  set (elementBottom := JS.add elementTop (S754_zero s)).
  set (visibleTop := JS.max elementTop (scrollY b)).
  set (visibleBottom :=
         JS.min elementBottom (JS.add (scrollY b) (innerHeight b))).
  assert (Hle : JS.compare visibleBottom visibleTop <> Some Gt).
  { destruct (JS.value elementTop) as [t|] eqn:Et.
    - apply (compare_transitive _ elementTop).
      + rewrite (compare_value_r _ elementTop elementBottom).
        * apply min_not_greater_l.
        * symmetry. apply add_zero_value.
      + apply max_not_smaller_l.
      + intros E. apply value_None in E. congruence.
    - apply value_None in Et. unfold visibleTop. rewrite Et.
      rewrite max_NaN_l, compare_NaN_r. discriminate. }
  pose proof (sub_not_positive _ _ false Hle) as Hd.
  change (JS.ofZ 0) with (S754_zero false).
  destruct (max_zero_cases (JS.sub visibleBottom visibleTop))
    as [-> | [-> | [_ Hs]]]; [reflexivity|reflexivity|congruence].
Qed.

(** For a height that is not negative the computed ratio is not negative:
    it is [NaN] or a number that does not compare smaller than zero. *)
Lemma visibility_not_negative (b : Browser) (rect : DOMRect) :
  JS.lt (rect_height rect) (JS.ofZ 0) = false ->
  JS.lt (visibility b rect) (JS.ofZ 0) = false.
Proof.
  intros Hh.
  destruct (JS.eqb (rect_height rect) (JS.ofZ 0)) eqn:Hz.
  { rewrite (visibility_zero_height b rect Hz). reflexivity. }
  assert (Hnz : forall s, rect_height rect <> S754_zero s).
  { intros s E. rewrite E in Hz. discriminate. }
  unfold visibility.
  set (d := JS.sub _ _). clearbody d.
  destruct (not_lt_zero_sign _ Hh) as [E|[[s E]|Hs]].
  - rewrite E. rewrite div_NaN_r. reflexivity.
  - exfalso. apply (Hnz s), E.
  - change (JS.ofZ 0) with (S754_zero false). apply not_negative.
    destruct (max_zero_cases d) as [-> | [-> | [-> Hd]]].
    + apply div_sign; [reflexivity|assumption|assumption].
    + discriminate.
    + apply div_sign; [|assumption|assumption].
      apply (gt_zero_sign d false), Hd.
Qed.

(** Rounding shows in the ratios.  A rectangle within the viewport, of exact
    ratio 1, can get a ratio below 1; one that touches the viewport from
    above, of exact ratio 0, can get a ratio above 0. *)
Example visibility_rounds_below_one :
  let b := {| scrollY := JS.ofQ (2 # 10); innerHeight := JS.ofZ 1024;
              getElementById := fun _ => None |} in
  let rect := {| rect_top := JS.ofQ (1 # 10); rect_height := JS.ofQ (1 # 10) |} in
  spec_visibilityRatio b rect == 1 /\
  visibility b rect = S754_finite false 9007199254740990 (-53) /\
  JS.lt (visibility b rect) (JS.ofZ 1) = true.
Proof. vm_compute. split; [|split]; reflexivity. Qed.

Example adjacent_rectangle_has_positive_ratio :
  let b := {| scrollY := JS.ofQ (16242 # 10); innerHeight := JS.ofZ 1024;
              getElementById := fun _ => None |} in
  let rect := {| rect_top := JS.ofQ (-5724 # 10);
                 rect_height := JS.ofQ (5724 # 10) |} in
  spec_visibilityRatio b rect == 0 /\
  visibility b rect = S754_finite false 8056754050362313 (-104) /\
  JS.gt (visibility b rect) (JS.ofZ 0) = true.
Proof. vm_compute. split; [|split]; reflexivity. Qed.

(** *** The selection loop *)

Lemma loopBody_visibilityOf (b : Browser) (acc : SectionId * JS.number)
    (s : SectionId) :
  loopBody b acc s =
  match visibilityOf b s with
  | Some v => if JS.gt v (snd acc) then (s, v) else acc
  | None => acc
  end.
Proof.
  unfold loopBody, visibilityOf. destruct (getElementById b s); reflexivity.
Qed.

(** The loop from [(c, m)]: no computed ratio of the list compares greater
    than the final maximum; either nothing was selected, or the selected
    identifier is the first of the list whose ratio is the final maximum,
    the ratios before it being smaller or [NaN]. *)
Lemma scan_first_maximum (b : Browser) (l : list SectionId) :
  forall (c : SectionId) (m : JS.number), m <> JS.NaN ->
  exists c' m',
    scan b l (c, m) = (c', m') /\ m' <> JS.NaN /\ JS.gt m m' = false /\
    (forall s v, In s l -> visibilityOf b s = Some v -> JS.gt v m' = false) /\
    ((c' = c /\ m' = m) \/
     (exists l1 l2, l = l1 ++ c' :: l2 /\ visibilityOf b c' = Some m' /\
                    JS.gt m' m = true /\
                    forall s v, In s l1 -> visibilityOf b s = Some v ->
                                JS.gt m' v = true \/ v = JS.NaN)).
Proof.
  induction l as [|x l IH]; intros c m Hm.
  - exists c, m. split; [reflexivity|]. split; [assumption|].
    split; [apply gt_irreflexive|].
    split; [intros s v []|left; split; reflexivity].
  - change (scan b (x :: l) (c, m)) with (scan b l (loopBody b (c, m) x)).
    rewrite loopBody_visibilityOf. simpl snd.
    destruct (visibilityOf b x) as [vx|] eqn:Hx.
    + destruct (JS.gt vx m) eqn:Hgt.
      * destruct (gt_not_NaN _ _ Hgt) as [Hvx _].
        destruct (IH x vx Hvx) as (c' & m' & Hs & Hm' & Hle & Hall & Hsel).
        exists c', m'. split; [exact Hs|]. split; [exact Hm'|].
        split; [eapply gt_not_gt; eassumption|].
        split.
        { intros s v [<-|Hin] Hv; [|eapply Hall; eassumption].
          rewrite Hx in Hv. injection Hv as <-. exact Hle. }
        right. destruct Hsel as [[-> ->]|(l1 & l2 & -> & Hc' & Hlt & Hbefore)].
        -- exists [], l. split; [reflexivity|]. split; [exact Hx|].
           split; [exact Hgt|]. intros s v [].
        -- exists (x :: l1), l2. split; [reflexivity|]. split; [exact Hc'|].
           split; [eapply gt_transitive; eassumption|].
           intros s v [<-|Hin] Hv; [|eapply Hbefore; eassumption].
           rewrite Hx in Hv. injection Hv as <-. left. exact Hlt.
      * destruct (IH c m Hm) as (c' & m' & Hs & Hm' & Hle & Hall & Hsel).
        exists c', m'. split; [exact Hs|]. split; [exact Hm'|].
        split; [exact Hle|]. split.
        { intros s v [<-|Hin] Hv; [|eapply Hall; eassumption].
          rewrite Hx in Hv. injection Hv as <-.
          eapply not_gt_trans; eassumption. }
        destruct Hsel as [Hsame|(l1 & l2 & -> & Hc' & Hlt & Hbefore)];
          [left; exact Hsame|right].
        exists (x :: l1), l2. split; [reflexivity|]. split; [exact Hc'|].
        split; [exact Hlt|].
        intros s v [<-|Hin] Hv; [|eapply Hbefore; eassumption].
        rewrite Hx in Hv. injection Hv as <-.
        destruct (not_gt_gt _ _ _ Hgt Hlt) as [E|E]; [right|left]; exact E.
    + destruct (IH c m Hm) as (c' & m' & Hs & Hm' & Hle & Hall & Hsel).
      exists c', m'. split; [exact Hs|]. split; [exact Hm'|].
      split; [exact Hle|]. split.
      { intros s v [<-|Hin] Hv; [congruence|eapply Hall; eassumption]. }
      destruct Hsel as [Hsame|(l1 & l2 & -> & Hc' & Hlt & Hbefore)];
        [left; exact Hsame|right].
      exists (x :: l1), l2. split; [reflexivity|]. split; [exact Hc'|].
      split; [exact Hlt|].
      intros s v [<-|Hin] Hv; [congruence|eapply Hbefore; eassumption].
Qed.

(** In [sections], the identifiers before a given one are those of smaller
    [index]. *)
Lemma sections_prefix (l1 l2 : list SectionId) (c s : SectionId) :
  sections = l1 ++ c :: l2 -> (index s < index c)%nat -> In s l1.
Proof.
  unfold sections. intros Hsplit Hlt.
  repeat (destruct l1 as [|? l1];
          [ injection Hsplit as <- _; destruct s; simpl in *; try lia; tauto
          | injection Hsplit as <- Hsplit ]).
  destruct l1; discriminate.
Qed.

Lemma sections_complete (s : SectionId) : In s sections.
Proof. destruct s; simpl; tauto. Qed.

Lemma index_nth (s : SectionId) : nth_error sections (index s) = Some s.
Proof. destruct s; reflexivity. Qed.

Lemma SectionId_eqb_eq (a b : SectionId) : SectionId_eqb a b = true <-> a = b.
Proof. destruct a, b; simpl; split; congruence. Qed.

Lemma ofZ_0_not_NaN : JS.ofZ 0 <> JS.NaN.
Proof. discriminate. Qed.

(** [currentSection] is the default [hero], no computed ratio comparing
    greater than zero, or the first identifier whose computed ratio compares
    greater than zero and is exceeded by no other. *)
Lemma currentSection_first_maximum (b : Browser) :
  (currentSection b = hero /\
   forall s v, visibilityOf b s = Some v -> JS.gt v (JS.ofZ 0) = false) \/
  (exists m, visibilityOf b (currentSection b) = Some m /\
             JS.gt m (JS.ofZ 0) = true /\
             (forall s v, visibilityOf b s = Some v -> JS.gt v m = false) /\
             (forall s v, (index s < index (currentSection b))%nat ->
                          visibilityOf b s = Some v ->
                          JS.gt m v = true \/ v = JS.NaN)).
Proof.
  unfold currentSection.
  destruct (scan_first_maximum b sections hero (JS.ofZ 0) ofZ_0_not_NaN)
    as (c' & m' & -> & Hm' & Hle & Hall & Hsel). simpl fst.
  destruct Hsel as [[-> ->]|(l1 & l2 & Hsplit & Hc' & Hlt & Hbefore)].
  - left. split; [reflexivity|]. intros s v Hv.
    eapply Hall; [apply sections_complete|exact Hv].
  - right. exists m'. split; [exact Hc'|]. split; [exact Hlt|]. split.
    + intros s v Hv. eapply Hall; [apply sections_complete|exact Hv].
    + intros s v Hs Hv. eapply Hbefore; [|exact Hv].
      eapply sections_prefix; eassumption.
Qed.

Lemma handleScroll_current (b : Browser) (prev : SectionId) :
  handleScroll b prev prev = currentSection b.
Proof.
  unfold handleScroll. destruct (SectionId_eqb (currentSection b) prev) eqn:E.
  - apply SectionId_eqb_eq in E. congruence.
  - reflexivity.
Qed.

(** The ratios that decide are the computed ones.  On a page laid out on
    fractional pixels and scrolled to 120.3, [hero] and [experience] both lie
    within the viewport and have ratio 1 as rationals; the ratio computed for
    [hero] is 1, the one computed for [experience] is the next double after
    1, and the recomputation selects [experience]. *)
Example rounding_separates_equal_ratios :
  let b := {| scrollY := JS.ofQ (1203 # 10); innerHeight := JS.ofZ 1024;
              getElementById := fractional |} in
  ratioOf b hero == 1 /\ ratioOf b experience == 1 /\
  (forall s, ratioOf b s <= ratioOf b hero) /\
  visibilityOf b hero = Some (JS.ofZ 1) /\
  option_map (fun v => JS.gt v (JS.ofZ 1)) (visibilityOf b experience)
  = Some true /\
  handleScroll b hero hero = experience.
Proof.
  intros b. split; [vm_compute; reflexivity|]. split; [vm_compute; reflexivity|].
  split; [intros s; destruct s; vm_compute; discriminate|].
  split; [vm_compute; reflexivity|].
  split; [vm_compute; reflexivity|].
  vm_compute. reflexivity.
Qed.



(** *** No section visible *)

Lemma currentSection_default (b : Browser) :
  (forall s v, visibilityOf b s = Some v -> JS.gt v (JS.ofZ 0) = false) ->
  currentSection b = hero.
Proof.
  intros Hnone.
  destruct (currentSection_first_maximum b)
    as [[Hhero _]|(m & Hm & Hpos & _)]; [exact Hhero|].
  rewrite (Hnone _ _ Hm) in Hpos. discriminate.
Qed.

(** C2, as stated, fails: with no section found and [contact] active, a
    recomputation makes [hero] the active section. *)
Lemma recompute_resets_to_hero :
  let b := {| scrollY := JS.ofZ 0; innerHeight := JS.ofZ 1024;
              getElementById := fun _ => None |} in
  (forall s, ratioOf b s <= 0) /\
  handleScroll b contact contact = hero /\
  handleScroll b contact contact <> contact.
Proof.
  intros b. split; [|split].
  - intros s. unfold ratioOf. simpl. lra.
  - reflexivity.
  - discriminate.
Qed.

(** C2, amended. When no section has a computed ratio that compares greater
    than zero (missing elements included), the section a recomputation
    arrives at is the default [hero].  The closure that recomputes sets the
    active section to [hero] unless [hero] is the active section it
    captured, in which case it calls no setter and the active section stays
    as it is: this is [hero] again when the closure captured the active
    section as it is now, and the prior value when the closure is a frame
    callback of an earlier run of the effect.  The active section is never
    left undefined. *)
Theorem recompute_without_visible_section
    (b : Browser) (captured state : SectionId) :
  (forall s e, getElementById b s = Some e ->
               JS.gt (visibility b (getBoundingClientRect b e)) (JS.ofZ 0)
               = false) ->
  currentSection b = hero /\
  handleScroll b captured state
  = (if SectionId_eqb hero captured then state else hero) /\
  handleScroll b state state = hero.
Proof.
  intros Hnone.
  assert (Hhero : currentSection b = hero).
  { apply currentSection_default. intros s v. unfold visibilityOf.
    destruct (getElementById b s) as [e|] eqn:E; [|discriminate].
    intros Hv. injection Hv as <-. eapply Hnone, E. }
  split; [exact Hhero|]. split.
  - unfold handleScroll. rewrite Hhero. reflexivity.
  - rewrite handleScroll_current. exact Hhero.
Qed.

Lemma recompute_without_visible_section_witness :
  let b := {| scrollY := JS.ofZ 0; innerHeight := JS.ofZ 0;
              getElementById := stacked (JS.ofZ 1024) |} in
  handleScroll b skills skills = hero /\
  handleScroll b hero contact = contact.
Proof.
  intros b.
  assert (Hnone : forall s e, getElementById b s = Some e ->
                    JS.gt (visibility b (getBoundingClientRect b e)) (JS.ofZ 0)
                    = false).
  { intros s e H. destruct s; injection H as <-; vm_compute; reflexivity. }
  split.
  - apply (recompute_without_visible_section b skills skills Hnone).
  - apply (recompute_without_visible_section b hero contact Hnone).
Defined.

(** *** Sections of height zero *)

(** The identifier the loop ends with is the initial one, or one whose
    visibility compared greater than some running maximum. *)
Lemma scan_selected (b : Browser) (l : list SectionId) :
  forall acc,
  fst (scan b l acc) = fst acc \/
  exists e m, getElementById b (fst (scan b l acc)) = Some e /\
              JS.gt (visibility b (getBoundingClientRect b e)) m = true.
Proof.
  induction l as [|x l IH]; intros acc; [left; reflexivity|].
  change (scan b (x :: l) acc) with (scan b l (loopBody b acc x)).
  destruct (IH (loopBody b acc x)) as [Hkeep|Hsel]; [|right; exact Hsel].
  rewrite Hkeep. unfold loopBody.
  destruct (getElementById b x) as [e|] eqn:Hx; [|left; reflexivity].
  cbv zeta.
  destruct (JS.gt (visibility b (getBoundingClientRect b e)) (snd acc)) eqn:Hgt;
    [|left; reflexivity].
  right. exists e, (snd acc). simpl. split; assumption.
Qed.

(** C6, as stated, fails: for a section of height zero the computed ratio is
    [NaN], the result of dividing zero by zero, and not zero. *)
Lemma zero_height_ratio_is_NaN :
  let b := {| scrollY := JS.ofZ 0; innerHeight := JS.ofZ 1024;
              getElementById := fun _ => Some (box (JS.ofZ 0) (JS.ofZ 0)) |} in
  let rect := getBoundingClientRect b (box (JS.ofZ 0) (JS.ofZ 0)) in
  JS.eqb (rect_height rect) (JS.ofZ 0) = true /\
  visibility b rect = JS.NaN /\
  visibility b rect <> JS.ofZ 0 /\
  JS.eqb (visibility b rect) (JS.ofZ 0) = false.
Proof.
  intros b rect. split; [|split; [|split]].
  - reflexivity.
  - reflexivity.
  - discriminate.
  - reflexivity.
Qed.

(** C6, amended. For a section whose measured height is zero, the ratio is
    computed by a division whose divisor is zero and is [NaN]; as [NaN]
    compares greater than nothing, an iteration on that section changes
    neither [currentSection] nor [maxVisibility], for every scroll offset, so
    the recomputation returns it only as the default [hero]. *)
Theorem zero_height_never_selected
    (b : Browser) (s : SectionId) (e : Element) :
  getElementById b s = Some e ->
  JS.eqb (rect_height (getBoundingClientRect b e)) (JS.ofZ 0) = true ->
  visibility b (getBoundingClientRect b e) = JS.NaN /\
  JS.eqb (visibility b (getBoundingClientRect b e)) (JS.ofZ 0) = false /\
  (forall acc, loopBody b acc s = acc) /\
  (forall prev, handleScroll b prev prev = s -> s = hero).
Proof.
  intros Hs Hz.
  pose proof (visibility_zero_height b _ Hz) as HNaN.
  split; [exact HNaN|]. split; [rewrite HNaN; reflexivity|]. split.
  - intros acc. unfold loopBody. rewrite Hs. cbv zeta.
    rewrite HNaN, gt_NaN. reflexivity.
  - intros prev. rewrite handleScroll_current. unfold currentSection.
    destruct (scan_selected b sections (hero, JS.ofZ 0))
      as [Hkeep|(e' & m & He' & Hgt)].
    + rewrite Hkeep. simpl. congruence.
    + intros Heq. rewrite Heq in He'.
      assert (e' = e) by congruence. subst e'.
      rewrite HNaN, gt_NaN in Hgt. discriminate.
Qed.

Lemma zero_height_never_selected_witness :
  let b := {| scrollY := JS.ofZ 300; innerHeight := JS.ofZ 1024;
              getElementById := fun s =>
                match s with
                | experience => Some (box (JS.ofZ 1024) (JS.ofZ 0))
                | _ => stacked (JS.ofZ 1024) s
                end |} in
  loopBody b (hero, JS.ofQ (1 # 2)) experience = (hero, JS.ofQ (1 # 2)).
Proof.
  intros b.
  apply (zero_height_never_selected b experience
           (box (JS.ofZ 1024) (JS.ofZ 0)));
    reflexivity.
Defined.

(** *** Navigation clicks *)

(** C3. For every identifier, [handleNavClick] leaves the active section
    equal to that identifier, whatever the geometry and the scroll position,
    without running [handleScroll] and without scheduling a frame; when the
    element is found one smooth scroll to it is requested, and when it is not
    found the update is kept and no scroll is requested.  The handler has no
    failing path. *)
Theorem nav_click_sets_active (st : State) (item : SectionId) :
  let st' := handleNavClick item st in
  activeSection st' = item /\
  recomputations st' = recomputations st /\
  frames st' = frames st /\
  browser st' = browser st /\
  match getElementById (browser st) item with
  | Some _ => smoothScrolls st' = smoothScrolls st ++ [item]
  | None => smoothScrolls st' = smoothScrolls st
  end.
Proof.
  unfold handleNavClick, handleSectionChange. simpl.
  destruct (getElementById (browser st) item); simpl; repeat split; reflexivity.
Qed.

(** The scenario of the specification: at the top of the page, where
    [contact] is not visible at all, a click on [contact] makes it active. *)
Example nav_click_contact_at_top :
  let st := mount {| scrollY := JS.ofZ 0; innerHeight := JS.ofZ 1024;
                     getElementById := stacked (JS.ofZ 1024) |} in
  activeSection st = hero /\
  activeSection (handleNavClick contact st) = contact /\
  smoothScrolls (handleNavClick contact st) = [contact].
Proof. vm_compute. repeat split; reflexivity. Qed.

(** What follows the handler is outside C3: the render caused by the update
    runs the effect again, whose initial [handleScroll()] reads the page as it
    is then. *)
Example nav_click_then_effect :
  let st := mount {| scrollY := JS.ofZ 0; innerHeight := JS.ofZ 1024;
                     getElementById := stacked (JS.ofZ 1024) |} in
  activeSection (step st (Click contact)) = hero.
Proof. vm_compute. reflexivity. Qed.

(** *** The frame throttle *)

Lemma render_spec (st : State) :
  (activeSection st = captured st /\ render st = st) \/
  (activeSection st <> captured st /\
   browser (render st) = browser st /\
   activeSection (render st) = currentSection (browser st) /\
   captured (render st) = currentSection (browser st) /\
   ticking (render st) = false /\
   frames (render st) = frames st).
Proof.
  unfold render. simpl commit.
  destruct (SectionId_eqb (activeSection st) (captured st)) eqn:E.
  - left. apply SectionId_eqb_eq in E. split; [assumption|reflexivity].
  - right. split.
    { intros H. apply SectionId_eqb_eq in H. congruence. }
    simpl. rewrite !handleScroll_current.
    destruct (SectionId_eqb (currentSection (browser st)) (activeSection st))
      eqn:E'; simpl; rewrite ?handleScroll_current.
    + apply SectionId_eqb_eq in E'. repeat split; congruence.
    + repeat split; reflexivity.
Qed.

Lemma SectionId_eqb_refl (a : SectionId) : SectionId_eqb a a = true.
Proof. destruct a; reflexivity. Qed.

Lemma commit_settled (k : nat) (st : State) :
  activeSection st = captured st -> commit k st = st.
Proof.
  intros H. destruct k; [reflexivity|]. simpl.
  rewrite H, SectionId_eqb_refl. reflexivity.
Qed.

(** Two runs of the effect settle the dependency: more fuel changes
    nothing. *)
Lemma commit_fuel (k : nat) (st : State) :
  commit (2 + k) st = render st /\
  activeSection (render st) = captured (render st).
Proof.
  unfold render.
  change (commit (2 + k) st)
    with (if SectionId_eqb (activeSection st) (captured st) then st
          else commit (S k) (effect st)).
  change (commit 2 st)
    with (if SectionId_eqb (activeSection st) (captured st) then st
          else commit 1 (effect st)).
  destruct (SectionId_eqb (activeSection st) (captured st)) eqn:E.
  - split; [reflexivity|]. apply SectionId_eqb_eq, E.
  - set (st1 := effect st).
    change (commit (S k) st1)
      with (if SectionId_eqb (activeSection st1) (captured st1) then st1
            else commit k (effect st1)).
    change (commit 1 st1)
      with (if SectionId_eqb (activeSection st1) (captured st1) then st1
            else effect st1).
    destruct (SectionId_eqb (activeSection st1) (captured st1)) eqn:E1.
    + split; [reflexivity|]. apply SectionId_eqb_eq, E1.
    + assert (Hs : activeSection (effect st1) = captured (effect st1)).
      { simpl. rewrite !handleScroll_current. reflexivity. }
      split; [apply commit_settled, Hs|exact Hs].
Qed.

Lemma mount_spec (b : Browser) :
  throttle_inv (mount b) /\ frames (mount b) = [] /\
  browser (mount b) = b /\ activeSection (mount b) = currentSection b.
Proof.
  unfold mount.
  destruct (render_spec (effect (initial b))) as [[Heq ->]|(Hne & Hb & Ha & Hc & Ht & Hf)].
  - simpl in *. rewrite handleScroll_current in *.
    unfold throttle_inv. simpl. rewrite handleScroll_current.
    repeat split; auto.
  - unfold throttle_inv. rewrite Ha, Hc, Ht, Hf, Hb. simpl.
    split; [split; [reflexivity|left; split; reflexivity]|].
    split; [reflexivity|]. split; reflexivity.
Qed.




Lemma throttle_inv_frames (st : State) :
  throttle_inv st -> (List.length (frames st) <= 1)%nat.
Proof. intros [_ [[_ ->]|[_ ->]]]; simpl; lia. Qed.






(** *** The viewport-entrance hook *)

Module HookProperties.

Import UseIntersectionObserver.

(** Two runs of the effect settle the dependency [hasTriggered]: more fuel
    changes nothing. *)
Lemma hook_commit_fuel {T : Type} (host : Host)
    (options : UseIntersectionObserverOptions) (elementRef : option T)
    (k : nat) (h : Hook) :
  commit host options elementRef (2 + k) h = render host options elementRef h /\
  forall h', render host options elementRef h = JS.Normal h' ->
             depHasTriggered h' = hasTriggered h'.
Proof.
  unfold render. destruct h as [i t d ob c].
  destruct elementRef as [element|], (prefersReducedMotion host) eqn:Hp,
    (hasIntersectionObserver host) eqn:Hio, t, d, k;
    simpl; rewrite ?Hp, ?Hio; simpl;
    (split; [reflexivity|]); intros h' H; try discriminate;
    injection H as <-; reflexivity.
Qed.

Lemma mount_inv {T : Type} (host : Host)
    (options : UseIntersectionObserverOptions) (elementRef : option T)
    (h : Hook) :
  mount host options elementRef = JS.Normal h ->
  hook_inv host options elementRef h.
Proof.
  unfold mount, render, commit, effect, hook_inv.
  destruct elementRef as [element|]; simpl.
  - destruct (prefersReducedMotion host) eqn:Hp; simpl.
    + intros [= <-]. simpl. auto.
    + destruct (hasIntersectionObserver host) eqn:Hio; simpl; [|discriminate].
      intros [= <-]. simpl. repeat split; auto. discriminate.
  - intros [= <-]. simpl. auto.
Qed.

(** A notification never fails, keeps the invariant, cannot lower the
    returned boolean under [triggerOnce], and sets it to the notified value
    otherwise. *)
Lemma notify_spec {T : Type} (host : Host)
    (options : UseIntersectionObserverOptions) (elementRef : option T)
    (entry : bool) (h : Hook) :
  hook_inv host options elementRef h ->
  exists h',
    notify host options elementRef entry h = JS.Normal h' /\
    hook_inv host options elementRef h' /\
    (triggerOnce options = true ->
     returned_isIntersecting options h = true ->
     returned_isIntersecting options h' = true) /\
    (triggerOnce options = false -> observing h <> None ->
     returned_isIntersecting options h' = entry).
Proof.
  unfold hook_inv, notify. intros [Hdep Hobs].
  destruct (observing h) as [o|] eqn:Ho.
  2:{ exists h. rewrite Ho. repeat split; auto. congruence. }
  destruct Hobs as (Hto & Hht & Hio & Hp & Href).
  destruct elementRef as [element|]; [clear Href|congruence].
  unfold render, commit, effect, callback, returned_isIntersecting.
  rewrite Hto, Hht, Hp, Hio.
  destruct h as [i t d ob c]. simpl in *. subst d ob.
  destruct (triggerOnce options), entry, t, i; simpl;
    eexists; (split; [reflexivity|]); simpl; rewrite ?Hp, ?Hio;
    repeat split; auto; try discriminate; try congruence.
Qed.

Lemma deliver_spec {T : Type} (host : Host)
    (options : UseIntersectionObserverOptions) (elementRef : option T)
    (entries : list bool) :
  forall h, hook_inv host options elementRef h ->
  exists h',
    deliver host options elementRef entries h = JS.Normal h' /\
    hook_inv host options elementRef h' /\
    (triggerOnce options = true ->
     returned_isIntersecting options h = true ->
     returned_isIntersecting options h' = true).
Proof.
  induction entries as [|entry rest IH]; intros h Hinv.
  - exists h. simpl. auto.
  - destruct (notify_spec host options elementRef entry h Hinv)
      as (h1 & Hn & Hinv1 & Hlatch & _).
    destruct (IH h1 Hinv1) as (h' & Hd & Hinv' & Hlatch').
    exists h'. simpl. rewrite Hn. auto.
Qed.

Lemma deliver_app {T : Type} (host : Host)
    (options : UseIntersectionObserverOptions) (elementRef : option T)
    (entries more : list bool) :
  forall h h',
  deliver host options elementRef entries h = JS.Normal h' ->
  deliver host options elementRef (entries ++ more) h =
  deliver host options elementRef more h'.
Proof.
  induction entries as [|entry rest IH]; intros h h' H; simpl in *.
  - injection H as <-. reflexivity.
  - destruct (notify host options elementRef entry h); [|discriminate].
    apply IH, H.
Qed.

Lemma hook_run_inv {T : Type} (host : Host)
    (options : UseIntersectionObserverOptions) (elementRef : option T)
    (entries : list bool) (h : Hook) :
  run host options elementRef entries = JS.Normal h ->
  hook_inv host options elementRef h /\
  exists h0, mount host options elementRef = JS.Normal h0 /\
             deliver host options elementRef entries h0 = JS.Normal h.
Proof.
  unfold run. destruct (mount host options elementRef) as [h0|] eqn:Hm;
    [|discriminate].
  intros Hd. pose proof (mount_inv host options elementRef h0 Hm) as Hinv0.
  destruct (deliver_spec host options elementRef entries h0 Hinv0)
    as (h' & Hd' & Hinv' & _).
  assert (h' = h) by congruence. subst h'.
  split; [assumption|]. exists h0. auto.
Qed.

Lemma deliver_unobserved {T : Type} (host : Host)
    (options : UseIntersectionObserverOptions) (elementRef : option T)
    (entries : list bool) (h : Hook) :
  observing h = None -> deliver host options elementRef entries h = JS.Normal h.
Proof.
  intros Ho. induction entries as [|entry rest IH]; [reflexivity|].
  simpl. unfold notify. rewrite Ho. exact IH.
Qed.

Lemma reduced_motion_mount {T : Type} (host : Host)
    (options : UseIntersectionObserverOptions) (element : T) :
  prefersReducedMotion host = true ->
  exists h,
    mount host options (Some element) = JS.Normal h /\
    returned_isIntersecting options h = true /\
    constructed h = 0%nat /\
    observing h = None.
Proof.
  intros Hp.
  exists {| isIntersecting := true; hasTriggered := true;
            depHasTriggered := true; observing := None; constructed := 0 |}.
  split.
  { unfold mount, render, commit, effect. rewrite Hp. reflexivity. }
  split.
  { unfold returned_isIntersecting. simpl. destruct (triggerOnce options); reflexivity. }
  split; reflexivity.
Qed.

(** C4. Under [triggerOnce = true], once the returned [isIntersecting] is
    true after some notifications, every further sequence of notifications is
    handled without failure and leaves it true, also when the element stops
    intersecting. *)
Theorem trigger_once_latch {T : Type} (host : Host)
    (options : UseIntersectionObserverOptions) (elementRef : option T)
    (entries more : list bool) (h : Hook) :
  triggerOnce options = true ->
  run host options elementRef entries = JS.Normal h ->
  returned_isIntersecting options h = true ->
  exists h',
    run host options elementRef (entries ++ more) = JS.Normal h' /\
    returned_isIntersecting options h' = true.
Proof.
  intros Hto Hrun Hvis.
  destruct (hook_run_inv host options elementRef entries h Hrun)
    as (Hinv & h0 & Hm & Hd).
  destruct (deliver_spec host options elementRef more h Hinv)
    as (h' & Hd' & _ & Hlatch).
  exists h'. split; [|auto].
  unfold run. rewrite Hm.
  rewrite (deliver_app host options elementRef entries more h0 h Hd).
  exact Hd'.
Qed.

Lemma trigger_once_latch_witness :
  exists h',
    run observed_host default_options (Some tt)
      ([false; true] ++ [false; false]) = JS.Normal h' /\
    returned_isIntersecting default_options h' = true.
Proof.
  apply (trigger_once_latch observed_host default_options (Some tt)
           [false; true] [false; false]
           {| isIntersecting := true; hasTriggered := true;
              depHasTriggered := true;
              observing := Some {| init_threshold := Single (1 # 10);
                                   init_rootMargin := "0px";
                                   seen_hasTriggered := true;
                                   seen_triggerOnce := true |};
              constructed := 2 |}); reflexivity.
Defined.

(** C5. With the element attached and the reduced-motion preference true at
    mount, for every configuration: mounting succeeds, the returned
    [isIntersecting] is true, no observer was constructed and none observes,
    and no later notification changes that. *)
Theorem reduced_motion_bypass {T : Type} (host : Host)
    (options : UseIntersectionObserverOptions) (element : T) :
  prefersReducedMotion host = true ->
  exists h,
    mount host options (Some element) = JS.Normal h /\
    returned_isIntersecting options h = true /\
    constructed h = 0%nat /\
    observing h = None /\
    forall entries, run host options (Some element) entries = JS.Normal h.
Proof.
  intros Hp.
  destruct (reduced_motion_mount host options element Hp)
    as (h & Hm & Hv & Hc & Ho).
  exists h. repeat split; try assumption.
  intros entries. unfold run. rewrite Hm. apply deliver_unobserved, Ho.
Qed.

Lemma reduced_motion_bypass_witness :
  exists h,
    mount {| prefersReducedMotion := true; hasIntersectionObserver := true |}
      toggling_options (Some tt) = JS.Normal h /\
    returned_isIntersecting toggling_options h = true /\
    constructed h = 0%nat /\
    observing h = None /\
    forall entries,
      run {| prefersReducedMotion := true; hasIntersectionObserver := true |}
        toggling_options (Some tt) entries = JS.Normal h.
Proof.
  apply (reduced_motion_bypass
           {| prefersReducedMotion := true; hasIntersectionObserver := true |}
           toggling_options tt).
  reflexivity.
Defined.

(** C7. Under [triggerOnce = false], after every notification delivered to
    the observer the returned [isIntersecting] is the notified value, true
    or false; and whatever the configuration, a notification that takes the
    returned boolean from true to false happens under [triggerOnce = false],
    with an entry that does not intersect. *)
Theorem non_latching_tracks {T : Type} (host : Host)
    (options : UseIntersectionObserverOptions) (elementRef : option T)
    (entries : list bool) (h : Hook) :
  run host options elementRef entries = JS.Normal h ->
  (triggerOnce options = false ->
   forall entry, observing h <> None ->
   exists h', notify host options elementRef entry h = JS.Normal h' /\
              returned_isIntersecting options h' = entry) /\
  (forall entry h',
     notify host options elementRef entry h = JS.Normal h' ->
     returned_isIntersecting options h = true ->
     returned_isIntersecting options h' = false ->
     triggerOnce options = false /\ entry = false).
Proof.
  intros Hrun.
  destruct (hook_run_inv host options elementRef entries h Hrun) as (Hinv & _).
  split.
  - intros Hto entry Hobs.
    destruct (notify_spec host options elementRef entry h Hinv)
      as (h' & Hn & _ & _ & Htrack).
    exists h'. split; [exact Hn|]. apply Htrack; assumption.
  - intros entry h' Hn Hbefore Hafter.
    destruct (notify_spec host options elementRef entry h Hinv)
      as (h1 & Hn1 & _ & Hlatch & Htrack).
    assert (h1 = h') by congruence. subst h1.
    destruct (triggerOnce options) eqn:Hto.
    + rewrite (Hlatch eq_refl Hbefore) in Hafter. discriminate.
    + split; [reflexivity|].
      destruct (observing h) as [o|] eqn:Ho.
      * rewrite <- Hafter. symmetry. apply Htrack; [reflexivity|discriminate].
      * unfold notify in Hn. rewrite Ho in Hn. injection Hn as <-.
        congruence.
Qed.

Lemma non_latching_tracks_witness :
  exists h',
    notify observed_host toggling_options (Some tt) false
      {| isIntersecting := true; hasTriggered := false;
         depHasTriggered := false;
         observing := Some {| init_threshold := Single (1 # 10);
                              init_rootMargin := "0px";
                              seen_hasTriggered := false;
                              seen_triggerOnce := false |};
         constructed := 1 |} = JS.Normal h' /\
    returned_isIntersecting toggling_options h' = false.
Proof.
  apply (non_latching_tracks observed_host toggling_options (Some tt) [true]);
    [reflexivity|reflexivity|discriminate].
Defined.

(** C8, as stated, fails: without [IntersectionObserver], an attached
    element and no reduced-motion preference, mounting throws and returns no
    state in which the element is visible. *)
Lemma unsupported_observer_throws :
  let host := {| prefersReducedMotion := false;
                 hasIntersectionObserver := false |} in
  hasIntersectionObserver host = false /\
  mount host default_options (Some tt) =
  JS.Throw (JS.ReferenceError "IntersectionObserver") /\
  ~ exists h, mount host default_options (Some tt) = JS.Normal h /\
              returned_isIntersecting default_options h = true.
Proof.
  intros host. split; [reflexivity|]. split; [reflexivity|].
  intros (h & Hm & _). discriminate.
Qed.

(** C8, amended. On a host without [IntersectionObserver], with the element
    attached: if reduced motion is not preferred, mounting throws a
    [ReferenceError] when it constructs the observer, for every
    configuration; the element is made visible without observation only when
    reduced motion is preferred. *)
Theorem unsupported_observer {T : Type} (host : Host)
    (options : UseIntersectionObserverOptions) (element : T) :
  hasIntersectionObserver host = false ->
  (prefersReducedMotion host = false ->
   mount host options (Some element) =
   JS.Throw (JS.ReferenceError "IntersectionObserver")) /\
  (prefersReducedMotion host = true ->
   exists h, mount host options (Some element) = JS.Normal h /\
             returned_isIntersecting options h = true /\
             constructed h = 0%nat).
Proof.
  intros Hio. split; intros Hp.
  - unfold mount, effect. rewrite Hp, Hio. reflexivity.
  - destruct (reduced_motion_mount host options element Hp)
      as (h & Hm & Hv & Hc & _).
    exists h. repeat split; assumption.
Qed.

Lemma unsupported_observer_witness :
  mount {| prefersReducedMotion := false; hasIntersectionObserver := false |}
    toggling_options (Some tt) =
  JS.Throw (JS.ReferenceError "IntersectionObserver").
Proof.
  apply (unsupported_observer
           {| prefersReducedMotion := false; hasIntersectionObserver := false |}
           toggling_options tt); reflexivity.
Defined.

(** C10. When [elementRef.current] is null as the effect runs, for every
    host (reduced motion preferred or not) and every configuration: mounting
    succeeds in the initial state, the returned [isIntersecting] is false, no
    observer was constructed and none observes, and no later notification
    changes that. *)
Theorem unattached_ref_stays_hidden (T : Type) (host : Host)
    (options : UseIntersectionObserverOptions) :
  mount host options (@None T) = JS.Normal initial /\
  returned_isIntersecting options initial = false /\
  constructed initial = 0%nat /\
  observing initial = None /\
  forall entries, run host options (@None T) entries = JS.Normal initial.
Proof.
  assert (Hm : mount host options (@None T) = JS.Normal initial) by reflexivity.
  split; [exact Hm|]. split.
  { unfold returned_isIntersecting. destruct (triggerOnce options); reflexivity. }
  split; [reflexivity|]. split; [reflexivity|].
  intros entries. unfold run. rewrite Hm. apply deliver_unobserved. reflexivity.
Qed.

End HookProperties.

(** *** The scroll spy under every sequence of events *)

Lemma render_rerun (st : State) :
  activeSection st <> captured st ->
  browser (render st) = browser st /\
  activeSection (render st) = currentSection (browser st) /\
  captured (render st) = currentSection (browser st) /\
  ticking (render st) = false /\
  frames (render st) = frames st /\
  (instance st < instance (render st))%nat /\
  (recomputations (render st) <= recomputations st + 2)%nat.
Proof.
  intros Hne. unfold render. simpl commit.
  destruct (SectionId_eqb (activeSection st) (captured st)) eqn:E.
  { apply SectionId_eqb_eq in E. contradiction. }
  simpl. rewrite !handleScroll_current.
  destruct (SectionId_eqb (currentSection (browser st)) (activeSection st))
    eqn:E'; simpl; rewrite ?handleScroll_current.
  - apply SectionId_eqb_eq in E'.
    repeat split; try congruence; lia.
  - repeat split; try reflexivity; lia.
Qed.

Lemma pendingOwn_old (fs : list Frame) (n : nat) :
  Forall (fun f => (frame_instance f < n)%nat) fs ->
  existsb (fun f => Nat.eqb (frame_instance f) n) fs = false.
Proof.
  induction 1 as [|f fs Hf _ IH]; [reflexivity|].
  simpl. rewrite IH, orb_false_r. apply Nat.eqb_neq. lia.
Qed.

Lemma spy_inv_rerun (st : State) :
  activeSection st <> captured st ->
  NoDup (map frame_instance (frames st)) ->
  Forall (fun f => (frame_instance f <= instance st)%nat) (frames st) ->
  spy_inv (render st).
Proof.
  intros Hne Hnd Hle.
  destruct (render_rerun st Hne) as (Hb & Ha & Hc & Ht & Hf & Hi & _).
  assert (Hold : Forall (fun f => (frame_instance f < instance (render st))%nat)
                   (frames st)).
  { eapply Forall_impl; [|exact Hle]. simpl. intros f H. lia. }
  assert (Hp : pendingOwn (render st) = false).
  { unfold pendingOwn. rewrite Hf. apply pendingOwn_old, Hold. }
  unfold spy_inv. rewrite Hp, Ha, Hc, Ht, Hf, Hb.
  split; [reflexivity|]. split; [reflexivity|]. split; [exact Hnd|].
  split; [eapply Forall_impl; [|exact Hold]; simpl; intros; lia|].
  split; [|reflexivity].
  eapply Forall_impl; [|exact Hold]. simpl. intros f H E. lia.
Qed.

Lemma spy_inv_mount (b : Browser) : spy_inv (mount b).
Proof.
  destruct (mount_spec b) as ([Hdep _] & Hf & Hb & Ha).
  unfold spy_inv, pendingOwn. rewrite Hf, Hb. simpl.
  destruct (mount_spec b) as ([_ [[Ht _]|[_ Hf']]] & _); [|congruence].
  rewrite Ht. repeat split; auto; constructor.
Qed.

(** The callbacks of one frame, run in order: they read the same page; the
    active section ends as the most visible section unless every callback
    captured exactly that section, in which case it is left as it was. *)
Lemma frame_callbacks (fs : list Frame) :
  forall st,
  let st' := fold_left frameCallback fs st in
  browser st' = browser st /\ instance st' = instance st /\
  captured st' = captured st /\ frames st' = frames st /\
  ticking st' =
    (ticking st &&
     negb (existsb (fun f => Nat.eqb (frame_instance f) (instance st)) fs)) /\
  activeSection st' =
    (if forallb (fun f => SectionId_eqb (currentSection (browser st))
                                        (frame_active f)) fs
     then activeSection st else currentSection (browser st)).
Proof.
  induction fs as [|f fs IH]; intros st; simpl.
  - rewrite andb_true_r. repeat split; reflexivity.
  - specialize (IH (frameCallback st f)). cbv zeta in IH.
    destruct IH as (Hb & Hi & Hc & Hf & Ht & Ha).
    assert (Hstep : browser (frameCallback st f) = browser st /\
                    instance (frameCallback st f) = instance st /\
                    captured (frameCallback st f) = captured st /\
                    frames (frameCallback st f) = frames st /\
                    ticking (frameCallback st f) =
                      (ticking st && negb (Nat.eqb (frame_instance f) (instance st))) /\
                    activeSection (frameCallback st f) =
                      handleScroll (browser st) (frame_active f) (activeSection st)).
    { unfold frameCallback. simpl.
      destruct (Nat.eqb (frame_instance f) (instance st)); simpl;
        rewrite ?andb_false_r, ?andb_true_r; repeat split; reflexivity. }
    destruct Hstep as (Hb1 & Hi1 & Hc1 & Hf1 & Ht1 & Ha1).
    rewrite Hb1 in Hb, Ha. rewrite Hi1 in Hi, Ht. rewrite Hc1 in Hc.
    rewrite Hf1 in Hf. rewrite Ht1 in Ht. rewrite Ha1 in Ha.
    split; [exact Hb|]. split; [exact Hi|]. split; [exact Hc|].
    split; [exact Hf|]. split.
    + rewrite Ht, negb_orb, andb_assoc. reflexivity.
    + rewrite Ha. unfold handleScroll.
      destruct (SectionId_eqb (currentSection (browser st)) (frame_active f));
        simpl; destruct (forallb _ fs); reflexivity.
Qed.

Lemma existsb_own (fs : list Frame) (n : nat) :
  existsb (fun f => Nat.eqb (frame_instance f) n) fs = true ->
  exists f, In f fs /\ frame_instance f = n.
Proof.
  intros H. apply existsb_exists in H as (f & Hin & Hf).
  exists f. split; [assumption|]. apply Nat.eqb_eq, Hf.
Qed.

(** An animation frame, in any state the events can reach. *)
Lemma spy_frame (st : State) :
  spy_inv st ->
  spy_inv (step st AnimationFrame) /\
  frames (step st AnimationFrame) = [] /\
  ticking (step st AnimationFrame) = false /\
  browser (step st AnimationFrame) = browser st /\
  activeSection (step st AnimationFrame) = currentSection (browser st).
Proof.
  intros (Hdep & Htick & Hnd & Hle & Hown & Hidle).
  unfold step.
  destruct (frame_callbacks (frames st) (setFrames [] st))
    as (Hb & Hi & Hc & Hf & Ht & Ha).
  set (s := fold_left frameCallback (frames st) (setFrames [] st)) in *.
  simpl in Hb, Hi, Hc, Hf, Ht, Ha.
  fold (pendingOwn st) in Ht. rewrite Htick in Ht.
  assert (Ht' : ticking s = false) by (rewrite Ht; destruct (pendingOwn st); reflexivity).
  assert (Ha' : activeSection s = currentSection (browser st)).
  { rewrite Ha.
    destruct (forallb _ (frames st)) eqn:Hall; [|reflexivity].
    destruct (pendingOwn st) eqn:Hp; [|auto].
    apply existsb_own in Hp as (f & Hin & Hfi).
    rewrite forallb_forall in Hall. specialize (Hall f Hin).
    apply SectionId_eqb_eq in Hall.
    rewrite Forall_forall in Hown. specialize (Hown f Hin Hfi). congruence. }
  destruct (render_spec s) as [[Heq Hr]|[Hne _]].
  - rewrite Hr. split; [|repeat split; congruence].
    unfold spy_inv, pendingOwn. rewrite Hf, Ht', Hb. simpl.
    repeat split; auto; constructor.
  - assert (Hinv : spy_inv (render s)).
    { apply spy_inv_rerun; [assumption| |]; rewrite Hf; constructor. }
    destruct (render_rerun s Hne) as (Hb' & Ha'' & _ & Ht'' & Hf' & _).
    split; [exact Hinv|]. repeat split; congruence.
Qed.

Lemma spy_scroll (st : State) (y : JS.number) :
  spy_inv st -> spy_inv (step st (Scroll y)).
Proof.
  intros (Hdep & Htick & Hnd & Hle & Hown & Hidle).
  unfold step, throttledHandleScroll. simpl.
  destruct (ticking st) eqn:Ht.
  - match goal with |- spy_inv (render ?s) =>
      destruct (render_spec s) as [[_ ->]|[Hne _]]; [|simpl in Hne; contradiction]
    end.
    unfold spy_inv, pendingOwn. simpl. fold (pendingOwn st). rewrite <- Htick.
    repeat split; auto. discriminate.
  - match goal with |- spy_inv (render ?s) =>
      destruct (render_spec s) as [[_ ->]|[Hne _]]; [|simpl in Hne; contradiction]
    end.
    assert (Hnone : existsb (fun f => Nat.eqb (frame_instance f) (instance st))
                      (frames st) = false) by (symmetry; exact Htick).
    unfold spy_inv, pendingOwn. simpl.
    rewrite existsb_app, Hnone. simpl. rewrite Nat.eqb_refl. simpl.
    split; [assumption|]. split; [reflexivity|]. split.
    { rewrite map_app. simpl.
      apply NoDup_app; [assumption|constructor; [intros []|constructor]|].
      intros n Hin [<-|[]]. apply in_map_iff in Hin as (f & Hfi & Hin).
      assert (existsb (fun f => Nat.eqb (frame_instance f) (instance st))
                (frames st) = true).
      { apply existsb_exists. exists f. split; [assumption|].
        apply Nat.eqb_eq, Hfi. }
      congruence. }
    split; [apply Forall_app; split; [assumption|constructor; [simpl; lia|constructor]]|].
    split; [|discriminate].
    apply Forall_app. split; [assumption|].
    constructor; [reflexivity|constructor].
Qed.

Lemma spy_click (st : State) (item : SectionId) :
  spy_inv st ->
  spy_inv (step st (Click item)) /\
  activeSection (step st (Click item)) =
    (if SectionId_eqb item (activeSection st) then item
     else currentSection (browser st)).
Proof.
  intros (Hdep & Htick & Hnd & Hle & Hown & Hidle).
  unfold step.
  assert (Hfields : activeSection (handleNavClick item st) = item /\
                    captured (handleNavClick item st) = captured st /\
                    browser (handleNavClick item st) = browser st /\
                    frames (handleNavClick item st) = frames st /\
                    instance (handleNavClick item st) = instance st /\
                    ticking (handleNavClick item st) = ticking st).
  { unfold handleNavClick, handleSectionChange. simpl.
    destruct (getElementById (browser st) item); repeat split; reflexivity. }
  destruct Hfields as (Ha & Hc & Hb & Hf & Hi & Ht).
  destruct (SectionId_eqb item (activeSection st)) eqn:E.
  - apply SectionId_eqb_eq in E.
    destruct (render_spec (handleNavClick item st)) as [[_ ->]|[Hne _]];
      [|congruence].
    split; [|exact Ha].
    unfold spy_inv, pendingOwn. rewrite Ha, Hc, Hb, Hf, Hi, Ht.
    fold (pendingOwn st). subst item. repeat split; assumption.
  - assert (Hne : activeSection (handleNavClick item st)
                  <> captured (handleNavClick item st)).
    { rewrite Ha, Hc, <- Hdep. intros H. apply SectionId_eqb_eq in H. congruence. }
    split.
    + apply spy_inv_rerun; [assumption|rewrite Hf; assumption|].
      rewrite Hf, Hi. assumption.
    + destruct (render_rerun _ Hne) as (_ & Ha' & _). rewrite Ha', Hb. reflexivity.
Qed.

Lemma spy_inv_step (st : State) (e : Event) : spy_inv st -> spy_inv (step st e).
Proof.
  intros Hinv. destruct e as [y| |item].
  - apply spy_scroll, Hinv.
  - apply spy_frame, Hinv.
  - apply spy_click, Hinv.
Qed.

Lemma spy_inv_run (trace : list Event) :
  forall st, spy_inv st -> spy_inv (run st trace).
Proof.
  induction trace as [|e trace IH]; intros st Hinv; [exact Hinv|].
  simpl. apply IH, spy_inv_step, Hinv.
Qed.

Lemma spy_inv_reachable (b : Browser) (trace : list Event) :
  spy_inv (run (mount b) trace).
Proof. apply spy_inv_run, spy_inv_mount. Qed.

(** *** Bursts of scroll notifications *)







(** X1. After any sequence of scroll notifications, animation frames and
    navigation clicks, whenever [ticking] is false the active section is the
    section [handleScroll] would select on the page as it is. *)
Theorem idle_spy_is_current (b : Browser) (trace : list Event) :
  let st := run (mount b) trace in
  ticking st = false ->
  activeSection st = currentSection (browser st).
Proof.
  intros st Ht.
  destruct (spy_inv_reachable b trace) as (_ & Htick & _ & _ & _ & Hidle).
  apply Hidle. rewrite <- Htick. exact Ht.
Qed.

Lemma idle_spy_is_current_witness :
  activeSection
    (run (mount {| scrollY := JS.ofZ 0; innerHeight := JS.ofZ 1024;
                   getElementById := stacked (JS.ofZ 1024) |})
       [Scroll (JS.ofZ 2100); Click contact; AnimationFrame]) = projects.
Proof.
  etransitivity.
  - apply (idle_spy_is_current
             {| scrollY := JS.ofZ 0; innerHeight := JS.ofZ 1024;
                getElementById := stacked (JS.ofZ 1024) |}
             [Scroll (JS.ofZ 2100); Click contact; AnimationFrame]).
    vm_compute. reflexivity.
  - vm_compute. reflexivity.
Defined.

(** X2. After any sequence of events, clicks included: [ticking] is set
    exactly when a callback of the registered effect run is queued, no effect
    run has two callbacks queued, and an animation frame leaves the queue
    empty and [ticking] false, so that the next scroll notification schedules
    a callback again. *)
Theorem throttle_never_stuck (b : Browser) (trace : list Event) (y : JS.number) :
  let st := run (mount b) trace in
  ticking st = pendingOwn st /\
  NoDup (map frame_instance (frames st)) /\
  frames (step st AnimationFrame) = [] /\
  ticking (step st AnimationFrame) = false /\
  List.length (frames (step (step st AnimationFrame) (Scroll y))) = 1%nat.
Proof.
  intros st.
  pose proof (spy_inv_reachable b trace) as Hinv. fold st in Hinv.
  destruct (spy_frame st Hinv) as (Hinv' & Hf & Ht & _).
  destruct Hinv as (_ & Htick & Hnd & _).
  repeat split; try assumption.
  set (s1 := step st AnimationFrame) in *.
  change (step s1 (Scroll y))
    with (render (throttledHandleScroll
                    (withBrowser (setScrollY y (browser s1)) s1))).
  unfold throttledHandleScroll.
  change (ticking (withBrowser (setScrollY y (browser s1)) s1))
    with (ticking s1).
  rewrite Ht.
  match goal with |- context [render ?s] =>
    destruct (render_spec s) as [[_ ->]|[Hne _]] end.
  - simpl. rewrite Hf. reflexivity.
  - simpl in Hne. destruct Hinv' as [Hdep _]. contradiction.
Qed.


(** X4. The re-render loop of [MainLayout] settles: two runs of the effect
    reach a state whose dependency is up to date, further runs change
    nothing, and a render calls [handleScroll] at most twice. *)
Theorem render_settles (st : State) (k : nat) :
  commit (2 + k) st = render st /\
  activeSection (render st) = captured (render st) /\
  (recomputations (render st) <= recomputations st + 2)%nat.
Proof.
  destruct (commit_fuel k st) as [Hfuel Hstable].
  split; [exact Hfuel|]. split; [exact Hstable|].
  destruct (render_spec st) as [[_ ->]|[Hne _]]; [lia|].
  apply render_rerun, Hne.
Qed.

(** *** What a positive ratio says of the geometry *)

(** A computed ratio compares greater than zero only for a positive height
    and a box that, as [handleScroll] measures it, overlaps the viewport. *)
Lemma visibility_positive (b : Browser) (rect : DOMRect) :
  let elementTop := JS.add (rect_top rect) (scrollY b) in
  let elementBottom := JS.add elementTop (rect_height rect) in
  JS.gt (visibility b rect) (JS.ofZ 0) = true ->
  JS.gt (rect_height rect) (JS.ofZ 0) = true /\
  JS.gt elementBottom (scrollY b) = true /\
  JS.gt (JS.add (scrollY b) (innerHeight b)) elementTop = true.
Proof.
  intros elementTop elementBottom Hpos.
  assert (Hnz : forall s, rect_height rect <> S754_zero s).
  { intros s E.
    assert (Hz : JS.eqb (rect_height rect) (JS.ofZ 0) = true)
      by (apply eqb_zero; exists s; exact E).
    rewrite (visibility_zero_height b rect Hz) in Hpos. discriminate. }
  unfold visibility in Hpos.
  fold elementTop in Hpos. fold elementBottom in Hpos.
  set (visibleTop := JS.max elementTop (scrollY b)) in Hpos.
  set (visibleBottom :=
         JS.min elementBottom (JS.add (scrollY b) (innerHeight b))) in Hpos.
  change (JS.ofZ 0) with (S754_zero false) in *.
  destruct (max_zero_cases (JS.sub visibleBottom visibleTop))
    as [E | [E | [E Hd]]]; rewrite E in Hpos.
  { rewrite div_zero_l in Hpos. discriminate. }
  { rewrite div_NaN_l in Hpos. discriminate. }
  split.
  - destruct (JS.sign (rect_height rect)) as [sh|] eqn:Hsh.
    + destruct (div_sign_xor _ _ false sh (gt_zero_sign _ _ Hd) Hsh)
        as [Hs|Hs]; rewrite (gt_zero_sign _ _ Hpos) in Hs; [discriminate|].
      destruct sh; [discriminate|].
      apply positive_sign; assumption.
    + destruct (rect_height rect); try discriminate.
      rewrite div_NaN_r in Hpos. discriminate.
  - apply sub_positive in Hd.
    destruct (gt_not_NaN _ _ Hd) as [HvB HvT].
    destruct (min_not_NaN _ _ HvB) as [HeB HW].
    destruct (max_not_NaN _ _ HvT) as [HeT HsY].
    split.
    + apply (not_smaller_gt visibleBottom); [apply min_not_greater_l| |exact HeB].
      apply (gt_not_smaller _ visibleTop);
        [exact Hd|apply max_not_smaller_r|exact HsY].
    + apply (not_smaller_gt visibleBottom); [apply min_not_greater_r| |exact HW].
      apply (gt_not_smaller _ visibleTop);
        [exact Hd|apply max_not_smaller_l|exact HeT].
Qed.

(** X5. A recomputation returns the default [hero] or a section whose
    element is found, whose computed ratio compares greater than zero, whose
    height is positive and whose box, as [handleScroll] measures it in
    doubles, overlaps the viewport: its bottom is below the top of the
    viewport and its top above the bottom of the viewport.  A missing section
    is never selected by the loop. *)
Theorem selected_section_overlaps_viewport (b : Browser) (prev : SectionId) :
  let r := handleScroll b prev prev in
  r = hero \/
  exists e, getElementById b r = Some e /\
    let rect := getBoundingClientRect b e in
    let elementTop := JS.add (rect_top rect) (scrollY b) in
    let elementBottom := JS.add elementTop (rect_height rect) in
    JS.gt (visibility b rect) (JS.ofZ 0) = true /\
    JS.gt (rect_height rect) (JS.ofZ 0) = true /\
    JS.gt elementBottom (scrollY b) = true /\
    JS.gt (JS.add (scrollY b) (innerHeight b)) elementTop = true.
Proof.
  intros r. subst r. rewrite handleScroll_current.
  destruct (currentSection_first_maximum b)
    as [[Hhero _]|(m & Hm & Hpos & _)]; [left; exact Hhero|].
  right. unfold visibilityOf in Hm.
  destruct (getElementById b (currentSection b)) as [e|]; [|discriminate].
  injection Hm as <-. exists e. split; [reflexivity|].
  cbv zeta. split; [exact Hpos|]. apply visibility_positive, Hpos.
Qed.

(** X6. For a rectangle whose height is not negative the ratio
    [handleScroll] computes is never negative, whatever the scroll position:
    it is [NaN] or does not compare smaller than zero.  It is not bounded by
    one: on the page laid out on fractional pixels and scrolled to 120.3,
    [experience] lies within the viewport and its computed ratio compares
    greater than one. *)
Theorem visibility_never_negative (b : Browser) (rect : DOMRect) :
  JS.lt (rect_height rect) (JS.ofZ 0) = false ->
  JS.lt (visibility b rect) (JS.ofZ 0) = false /\
  option_map (fun v => JS.gt v (JS.ofZ 1))
    (visibilityOf {| scrollY := JS.ofQ (1203 # 10); innerHeight := JS.ofZ 1024;
                     getElementById := fractional |} experience)
  = Some true.
Proof.
  intros Hh. split; [apply visibility_not_negative, Hh|].
  vm_compute. reflexivity.
Qed.

Lemma visibility_never_negative_witness :
  JS.lt (visibility
           {| scrollY := JS.ofZ 1200; innerHeight := JS.ofZ 1024;
              getElementById := stacked (JS.ofZ 1024) |}
           (getBoundingClientRect
              {| scrollY := JS.ofZ 1200; innerHeight := JS.ofZ 1024;
                 getElementById := stacked (JS.ofZ 1024) |}
              (box (JS.ofZ 1024) (JS.ofZ 1024))))
        (JS.ofZ 0) = false.
Proof.
  apply (visibility_never_negative
           {| scrollY := JS.ofZ 1200; innerHeight := JS.ofZ 1024;
              getElementById := stacked (JS.ofZ 1024) |}).
  reflexivity.
Defined.

(** *** [useScrollAnimation] and [useStaggeredIntersectionObserver] *)

Module AnimationProperties.

Import UseIntersectionObserver.
Import AnimationHooks.

Lemma animationCommit_inv {T : Type} (host : Host)
    (options : ScrollAnimationOptions) (elementRef : option T)
    (s : ScrollAnimation) :
  hook_inv host (sa_observerOptions options) elementRef (sa_hook s) ->
  (sa_dep s = false -> sa_timeout s = None) ->
  (sa_dep s = true ->
   shouldAnimate s = true \/
   exists due, sa_timeout s = Some due /\
               due <= sa_clock s + Qmax 0 (animationDelay options * 1000)) ->
  animation_inv host options elementRef (animationCommit options s) /\
  shouldAnimate (animationCommit options s) = shouldAnimate s /\
  sa_hook (animationCommit options s) = sa_hook s.
Proof.
  intros Hh Hnone Hsome. unfold animationCommit, animation_inv.
  destruct (Bool.eqb _ (sa_dep s)) eqn:E.
  - apply Bool.eqb_prop in E. split; [|split; reflexivity].
    split; [exact Hh|]. split; [symmetry; exact E|]. split; assumption.
  - unfold animationEffect. simpl. split; [|split; reflexivity].
    split; [exact Hh|]. split; [reflexivity|].
    destruct (returned_isIntersecting (sa_observerOptions options) (sa_hook s));
      split; try discriminate; try reflexivity.
    intros _. right. eexists. split; [reflexivity|]. unfold dueTime. lra.
Qed.

Lemma mountScrollAnimation_inv {T : Type} (host : Host)
    (options : ScrollAnimationOptions) (elementRef : option T)
    (s : ScrollAnimation) :
  mountScrollAnimation host options elementRef = JS.Normal s ->
  animation_inv host options elementRef s.
Proof.
  unfold mountScrollAnimation.
  destruct (mount host (sa_observerOptions options) elementRef) as [h|] eqn:Hm;
    [|discriminate].
  intros [= <-]. apply animationCommit_inv; simpl.
  - eapply HookProperties.mount_inv, Hm.
  - reflexivity.
  - discriminate.
Qed.

Lemma elapse_inv {T : Type} (host : Host)
    (options : ScrollAnimationOptions) (elementRef : option T)
    (dt : Q) (s : ScrollAnimation) :
  0 <= dt ->
  animation_inv host options elementRef s ->
  animation_inv host options elementRef (elapse dt s).
Proof.
  intros Hdt (Hh & Hdep & Hnone & Hsome). unfold elapse, animation_inv.
  destruct (sa_timeout s) as [due|] eqn:Hto.
  - destruct (Qle_bool due (sa_clock s + dt)) eqn:Hdue; simpl.
    + split; [exact Hh|]. split; [exact Hdep|]. split; auto.
    + split; [exact Hh|]. split; [exact Hdep|]. split.
      * intros Hd. specialize (Hnone Hd). discriminate.
      * intros Hd. destruct (Hsome Hd) as [Ha|(due' & Heq & Hle)];
          [left; assumption|right].
        injection Heq as Heq. subst due'.
        exists due. split; [reflexivity|lra].
  - simpl. split; [exact Hh|]. split; [exact Hdep|]. split; [auto|].
    intros Hd. destruct (Hsome Hd) as [Ha|(due' & Habs & _)];
      [left; assumption|discriminate].
Qed.

Lemma step_animation_inv0 {T : Type} (host : Host)
    (options : ScrollAnimationOptions) (elementRef : option T)
    (e : HookEvent) (s : ScrollAnimation) :
  animation_inv0 host options elementRef s ->
  exists s',
    stepScrollAnimation host options elementRef s e = JS.Normal s' /\
    animation_inv0 host options elementRef s' /\
    (shouldAnimate s = true -> shouldAnimate s' = true).
Proof.
  intros (Hh & Hdep & Hnone). destruct e as [entry|dt]; simpl.
  - destruct (HookProperties.notify_spec host (sa_observerOptions options)
                elementRef entry (sa_hook s) Hh) as (h' & -> & Hh' & _).
    eexists. split; [reflexivity|].
    unfold animationCommit, animation_inv0. simpl.
    destruct (Bool.eqb _ (sa_dep s)) eqn:E; simpl.
    + apply Bool.eqb_prop in E.
      split; [|auto]. split; [exact Hh'|]. split; [symmetry; exact E|exact Hnone].
    + split; [|auto]. split; [exact Hh'|]. split; [reflexivity|].
      destruct (returned_isIntersecting (sa_observerOptions options) h');
        [discriminate|reflexivity].
  - eexists. split; [reflexivity|].
    unfold elapse, animation_inv0.
    destruct (sa_timeout s) as [due|] eqn:Hto;
      [destruct (Qle_bool due (sa_clock s + dt))|]; simpl;
      (split; [split; [exact Hh|split; [exact Hdep|]]|auto]); auto.
Qed.

Lemma run_animation_inv0 {T : Type} (host : Host)
    (options : ScrollAnimationOptions) (elementRef : option T)
    (events : list HookEvent) :
  forall s, animation_inv0 host options elementRef s ->
  exists s',
    runScrollAnimationFrom host options elementRef events s = JS.Normal s' /\
    animation_inv0 host options elementRef s' /\
    (shouldAnimate s = true -> shouldAnimate s' = true).
Proof.
  induction events as [|e rest IH]; intros s Hinv.
  - exists s. simpl. auto.
  - destruct (step_animation_inv0 host options elementRef e s Hinv)
      as (s1 & Hs & Hinv1 & Hlatch).
    destruct (IH s1 Hinv1) as (s' & Hr & Hinv' & Hlatch').
    exists s'. simpl. rewrite Hs. auto.
Qed.

Lemma animation_inv_weaken {T : Type} (host : Host)
    (options : ScrollAnimationOptions) (elementRef : option T)
    (s : ScrollAnimation) :
  animation_inv host options elementRef s ->
  animation_inv0 host options elementRef s.
Proof.
  intros (H1 & H2 & H3 & _). split; [exact H1|]. split; [exact H2|exact H3].
Qed.

Lemma step_animation_inv {T : Type} (host : Host)
    (options : ScrollAnimationOptions) (elementRef : option T)
    (e : HookEvent) (s : ScrollAnimation) :
  nonnegative e ->
  animation_inv host options elementRef s ->
  exists s',
    stepScrollAnimation host options elementRef s e = JS.Normal s' /\
    animation_inv host options elementRef s'.
Proof.
  intros He Hinv. destruct e as [entry|dt]; simpl.
  - destruct Hinv as (Hh & Hdep & Hnone & Hsome).
    destruct (HookProperties.notify_spec host (sa_observerOptions options)
                elementRef entry (sa_hook s) Hh) as (h' & -> & Hh' & _).
    eexists. split; [reflexivity|].
    apply animationCommit_inv; unfold withHook; simpl; assumption.
  - eexists. split; [reflexivity|]. apply (elapse_inv host); assumption.
Qed.

Lemma run_animation_inv {T : Type} (host : Host)
    (options : ScrollAnimationOptions) (elementRef : option T)
    (events : list HookEvent) :
  Forall nonnegative events ->
  forall s, animation_inv host options elementRef s ->
  exists s',
    runScrollAnimationFrom host options elementRef events s = JS.Normal s' /\
    animation_inv host options elementRef s'.
Proof.
  induction 1 as [|e rest He _ IH]; intros s Hinv.
  - exists s. simpl. auto.
  - destruct (step_animation_inv host options elementRef e s He Hinv)
      as (s1 & Hs & Hinv1).
    destruct (IH s1 Hinv1) as (s' & Hr & Hinv').
    exists s'. simpl. rewrite Hs. auto.
Qed.

Lemma runScrollAnimationFrom_app {T : Type} (host : Host)
    (options : ScrollAnimationOptions) (elementRef : option T)
    (events more : list HookEvent) :
  forall s s',
  runScrollAnimationFrom host options elementRef events s = JS.Normal s' ->
  runScrollAnimationFrom host options elementRef (events ++ more) s =
  runScrollAnimationFrom host options elementRef more s'.
Proof.
  induction events as [|e rest IH]; intros s s' H; simpl in *.
  - injection H as <-. reflexivity.
  - destruct (stepScrollAnimation host options elementRef s e); [|discriminate].
    apply IH, H.
Qed.

(** X7. [shouldAnimate] never returns to false: once true after some
    events, every further sequence of observer entries and time steps is
    handled without failure and leaves it true, for every configuration,
    also under [triggerOnce = false] when the element leaves the viewport. *)
Theorem should_animate_latches {T : Type} (host : Host)
    (options : ScrollAnimationOptions) (elementRef : option T)
    (events more : list HookEvent) (s : ScrollAnimation) :
  runScrollAnimation host options elementRef events = JS.Normal s ->
  shouldAnimate s = true ->
  exists s',
    runScrollAnimation host options elementRef (events ++ more) = JS.Normal s' /\
    shouldAnimate s' = true.
Proof.
  unfold runScrollAnimation.
  destruct (mountScrollAnimation host options elementRef) as [s0|] eqn:Hm;
    [|discriminate].
  intros Hrun Hs.
  pose proof (mountScrollAnimation_inv host options elementRef s0 Hm) as Hinv0.
  apply animation_inv_weaken in Hinv0.
  destruct (run_animation_inv0 host options elementRef events s0 Hinv0)
    as (s1 & Hr1 & Hinv1 & _).
  assert (s1 = s) by congruence. subst s1.
  destruct (run_animation_inv0 host options elementRef more s Hinv1)
    as (s' & Hr' & _ & Hlatch).
  exists s'. split; [|auto].
  rewrite (runScrollAnimationFrom_app host options elementRef events more s0 s Hrun).
  exact Hr'.
Qed.

Lemma should_animate_latches_witness :
  exists s',
    runScrollAnimation observed_host
      (animation_options toggling_options (Some (1 # 2)))
      (Some tt)
      ([Entry true; Elapse 500] ++ [Entry false; Elapse 10000; Entry true])
    = JS.Normal s' /\
    shouldAnimate s' = true.
Proof.
  eapply (should_animate_latches observed_host
            (animation_options toggling_options (Some (1 # 2))) (Some tt)
            [Entry true; Elapse 500]); reflexivity.
Defined.

(** X8. After any sequence of events, while the hook reports the element as
    not intersecting no timer is pending, so the passing of time does not set
    [shouldAnimate]: a timer started on entering the viewport is cleared when
    the element leaves before the delay has passed. *)
Theorem hidden_element_has_no_timer {T : Type} (host : Host)
    (options : ScrollAnimationOptions) (elementRef : option T)
    (events : list HookEvent) (s : ScrollAnimation) (dt : Q) :
  runScrollAnimation host options elementRef events = JS.Normal s ->
  returned_isIntersecting (sa_observerOptions options) (sa_hook s) = false ->
  sa_timeout s = None /\
  shouldAnimate (elapse dt s) = shouldAnimate s.
Proof.
  unfold runScrollAnimation.
  destruct (mountScrollAnimation host options elementRef) as [s0|] eqn:Hm;
    [|discriminate].
  intros Hrun Hhidden.
  pose proof (mountScrollAnimation_inv host options elementRef s0 Hm) as Hinv0.
  apply animation_inv_weaken in Hinv0.
  destruct (run_animation_inv0 host options elementRef events s0 Hinv0)
    as (s1 & Hr1 & (_ & Hdep & Hnone) & _).
  assert (s1 = s) by congruence. subst s1.
  assert (Hto : sa_timeout s = None) by (apply Hnone; congruence).
  split; [exact Hto|]. unfold elapse. rewrite Hto. reflexivity.
Qed.

Lemma hidden_element_has_no_timer_witness :
  exists s,
    runScrollAnimation observed_host
      (animation_options toggling_options (Some (1 # 2)))
      (Some tt) [Entry true; Elapse 499; Entry false] = JS.Normal s /\
    sa_timeout s = None /\
    shouldAnimate (elapse 10000 s) = false.
Proof.
  destruct (runScrollAnimation observed_host
              (animation_options toggling_options (Some (1 # 2)))
              (Some tt) [Entry true; Elapse 499; Entry false])
    as [s|] eqn:Hrun; [|vm_compute in Hrun; discriminate].
  exists s. split; [reflexivity|].
  pose proof Hrun as Hs. vm_compute in Hs. injection Hs as Hs.
  assert (Hhidden : returned_isIntersecting toggling_options (sa_hook s) = false)
    by (rewrite <- Hs; reflexivity).
  destruct (hidden_element_has_no_timer observed_host
              (animation_options toggling_options (Some (1 # 2))) (Some tt)
              _ s 10000 Hrun Hhidden) as [Hto Hel].
  split; [exact Hto|]. rewrite Hel, <- Hs. reflexivity.
Defined.

(** X9. After any sequence of events in which time does not run backwards,
    while the hook reports the element as intersecting, letting at least
    [animationDelay * 1000] pass (nothing, if that is negative) sets
    [shouldAnimate]. *)
Theorem visible_element_animates {T : Type} (host : Host)
    (options : ScrollAnimationOptions) (elementRef : option T)
    (events : list HookEvent) (s : ScrollAnimation) (dt : Q) :
  Forall nonnegative events ->
  runScrollAnimation host options elementRef events = JS.Normal s ->
  returned_isIntersecting (sa_observerOptions options) (sa_hook s) = true ->
  Qmax 0 (animationDelay options * 1000) <= dt ->
  shouldAnimate (elapse dt s) = true.
Proof.
  unfold runScrollAnimation.
  destruct (mountScrollAnimation host options elementRef) as [s0|] eqn:Hm;
    [|discriminate].
  intros Hnn Hrun Hvisible Hdt.
  pose proof (mountScrollAnimation_inv host options elementRef s0 Hm) as Hinv0.
  destruct (run_animation_inv host options elementRef events Hnn s0 Hinv0)
    as (s1 & Hr1 & (_ & Hdep & _ & Hsome)).
  assert (s1 = s) by congruence. subst s1.
  rewrite <- Hdep in Hvisible. unfold elapse.
  destruct (Hsome Hvisible) as [Ha|(due & Hto & Hle)].
  - destruct (sa_timeout s) as [due|]; [|exact Ha].
    destruct (Qle_bool due (sa_clock s + dt)); [reflexivity|exact Ha].
  - rewrite Hto.
    assert (Hdue : Qle_bool due (sa_clock s + dt) = true)
      by (apply Qle_bool_iff; lra).
    rewrite Hdue. reflexivity.
Qed.

Lemma visible_element_animates_witness :
  exists s,
    runScrollAnimation observed_host
      (animation_options default_options (Some (3 # 10)))
      (Some tt) [Entry false; Elapse 50; Entry true; Elapse 100] = JS.Normal s /\
    shouldAnimate s = false /\
    shouldAnimate (elapse 300 s) = true.
Proof.
  destruct (runScrollAnimation observed_host
              (animation_options default_options (Some (3 # 10)))
              (Some tt) [Entry false; Elapse 50; Entry true; Elapse 100])
    as [s|] eqn:Hrun; [|vm_compute in Hrun; discriminate].
  exists s. split; [reflexivity|].
  pose proof Hrun as Hs. vm_compute in Hs. injection Hs as Hs.
  split; [rewrite <- Hs; reflexivity|].
  apply (visible_element_animates observed_host
           (animation_options default_options (Some (3 # 10))) (Some tt)
           [Entry false; Elapse 50; Entry true; Elapse 100] s 300).
  - repeat constructor; simpl; lra.
  - exact Hrun.
  - rewrite <- Hs. reflexivity.
  - vm_compute. discriminate.
Defined.

(** X10. With the reduced-motion preference and an attached element, for
    every configuration and also with [animationDelay = 0]: right after mount
    the hook reports the element as intersecting while [shouldAnimate] is
    still false and [animate] is the hidden pose; the timer of the effect is
    pending and sets [shouldAnimate] when it runs. *)
Theorem reduced_motion_waits_for_timer {T : Type} (host : Host)
    (options : ScrollAnimationOptions) (element : T) :
  prefersReducedMotion host = true ->
  exists s,
    mountScrollAnimation host options (Some element) = JS.Normal s /\
    returned_isIntersecting (sa_observerOptions options) (sa_hook s) = true /\
    shouldAnimate s = false /\
    animate s = (0, 30) /\
    sa_timeout s = Some (dueTime 0 (animationDelay options * 1000)) /\
    forall dt, Qmax 0 (animationDelay options * 1000) <= dt ->
               shouldAnimate (elapse dt s) = true /\
               animate (elapse dt s) = (1, 0).
Proof.
  intros Hp. unfold mountScrollAnimation.
  destruct (HookProperties.reduced_motion_mount host (sa_observerOptions options)
              element Hp) as (h & -> & Hv & _).
  eexists. split; [reflexivity|].
  unfold animationCommit, animationEffect. simpl. rewrite Hv. simpl.
  split; [exact Hv|]. split; [reflexivity|]. split; [reflexivity|].
  split; [reflexivity|].
  intros dt Hdt. unfold elapse, animate. simpl.
  assert (Hdue : Qle_bool (dueTime 0 (animationDelay options * 1000)) (0 + dt)
                 = true).
  { apply Qle_bool_iff. unfold dueTime. lra. }
  rewrite Hdue. simpl. split; reflexivity.
Qed.

Lemma reduced_motion_waits_for_timer_witness :
  exists s,
    mountScrollAnimation
      {| prefersReducedMotion := true; hasIntersectionObserver := true |}
      (animation_options default_options None)
      (Some tt) = JS.Normal s /\
    shouldAnimate s = false.
Proof.
  destruct (reduced_motion_waits_for_timer
              {| prefersReducedMotion := true; hasIntersectionObserver := true |}
              (animation_options default_options None)
              tt eq_refl) as (s & Hm & _ & Hs & _).
  exists s. split; assumption.
Defined.

(** **** Arrays and schedules *)

Lemma prefixArray_length (k n : nat) :
  (k <= n)%nat -> List.length (prefixArray k n) = n.
Proof.
  intros H. unfold prefixArray. rewrite length_app, !repeat_length. lia.
Qed.

Lemma prefixArray_cons (k n : nat) :
  (k <= n)%nat -> prefixArray (S k) (S n) = Some true :: prefixArray k n.
Proof. intros H. reflexivity. Qed.

(** Revealing, in an array whose first [k] items are revealed, one of these
    or the next one. *)
Lemma replace_prefixArray (i : nat) :
  forall k n, (i <= k)%nat -> (i < n)%nat -> (k <= n)%nat ->
  firstn i (prefixArray k n) ++ Some true :: skipn (S i) (prefixArray k n)
  = prefixArray (Nat.max k (S i)) n.
Proof.
  induction i as [|i IH]; intros k n Hik Hin Hkn.
  - destruct n as [|n]; [lia|]. destruct k as [|k].
    + unfold prefixArray. simpl. rewrite Nat.sub_0_r. reflexivity.
    + rewrite prefixArray_cons by lia. simpl skipn.
      replace (Nat.max (S k) 1) with (S k) by lia.
      rewrite prefixArray_cons by lia. reflexivity.
  - destruct n as [|n]; [lia|]. destruct k as [|k]; [lia|].
    rewrite prefixArray_cons by lia.
    change (firstn (S i) (Some true :: prefixArray k n))
      with (Some true :: firstn i (prefixArray k n)).
    change (skipn (S (S i)) (Some true :: prefixArray k n))
      with (skipn (S i) (prefixArray k n)).
    simpl app. rewrite IH by lia.
    replace (Nat.max (S k) (S (S i))) with (S (Nat.max k (S i))) by lia.
    rewrite prefixArray_cons by lia. reflexivity.
Qed.

Lemma reveal_prefixArray (due : Q) (i k n : nat) :
  (i <= k)%nat -> (i < n)%nat -> (k <= n)%nat ->
  reveal (prefixArray k n) (due, i) = prefixArray (Nat.max k (S i)) n.
Proof.
  intros Hik Hin Hkn. unfold reveal, arrayAssign. simpl snd.
  rewrite prefixArray_length by assumption.
  assert (Hlt : Nat.ltb i n = true) by (apply Nat.ltb_lt; assumption).
  rewrite Hlt. apply replace_prefixArray; assumption.
Qed.

(** The timers of consecutive items, run in order. *)
Lemma reveal_schedule (options : StaggerOptions) (base : Q) (m : nat) :
  forall j k n, (j <= k)%nat -> (j + m <= n)%nat -> (k <= n)%nat ->
  fold_left reveal (schedule options base j m) (prefixArray k n)
  = prefixArray (Nat.max k (j + m)) n.
Proof.
  induction m as [|m IH]; intros j k n Hjk Hjm Hkn.
  - simpl. replace (Nat.max k (j + 0)) with k by lia. reflexivity.
  - unfold schedule. simpl. fold (schedule options base (S j) m).
    rewrite reveal_prefixArray by lia.
    rewrite IH by lia. f_equal. lia.
Qed.

Lemma itemDelay_clamped_mono (options : StaggerOptions) (i j : nat) :
  (i <= j)%nat ->
  Qmax 0 (itemDelay options i) <= Qmax 0 (itemDelay options j).
Proof.
  intros Hij. unfold itemDelay.
  assert (Hinj : inject_Z (Z.of_nat i) <= inject_Z (Z.of_nat j)).
  { rewrite <- Zle_Qle. lia. }
  assert (Hi0 : 0 <= inject_Z (Z.of_nat i)).
  { change 0 with (inject_Z 0). rewrite <- Zle_Qle. lia. }
  destruct (Qlt_le_dec (staggerDelay options) 0) as [Hneg|Hpos].
  - assert (H1 : inject_Z (Z.of_nat i) * staggerDelay options <= 0).
    { rewrite Qmult_comm.
      setoid_replace 0 with (staggerDelay options * 0) by ring.
      destruct (Qeq_dec (inject_Z (Z.of_nat i)) 0) as [E|E].
      - rewrite E. lra.
      - apply Qlt_le_weak.
        setoid_replace (staggerDelay options * 0) with 0 by ring.
        assert (0 < inject_Z (Z.of_nat i)) by lra.
        setoid_replace (staggerDelay options * inject_Z (Z.of_nat i))
          with (- ((- staggerDelay options) * inject_Z (Z.of_nat i))) by ring.
        assert (0 < (- staggerDelay options) * inject_Z (Z.of_nat i)).
        { apply Qmult_lt_0_compat; lra. }
        lra. }
    assert (H2 : Qmax 0 (inject_Z (Z.of_nat i) * staggerDelay options * 1000) == 0).
    { apply Q.max_l. lra. }
    rewrite H2. apply Q.le_max_l.
  - assert (H1 : inject_Z (Z.of_nat i) * staggerDelay options
                 <= inject_Z (Z.of_nat j) * staggerDelay options).
    { apply Qmult_le_compat_r; assumption. }
    apply Q.max_le_compat_l. lra.
Qed.

(** Of the timers of consecutive items, those due at a given time are the
    first ones. *)
Lemma due_timers_first (options : StaggerOptions) (base now : Q) (n : nat) :
  forall j,
  exists m, (m <= n)%nat /\
    filter (isDue now) (schedule options base j n) = schedule options base j m /\
    filter (fun t => negb (isDue now t)) (schedule options base j n)
    = schedule options base (j + m) (n - m) /\
    (dueTime base (itemDelay options (j + n - 1)) <= now -> m = n).
Proof.
  induction n as [|n IH]; intros j.
  - exists 0%nat. simpl. auto.
  - unfold schedule. simpl. fold (schedule options base (S j) n).
    destruct (isDue now (dueTime base (itemDelay options j), j)) eqn:Hdue.
    + destruct (IH (S j)) as (m & Hm & Hf & Hr & Hall).
      exists (S m). simpl. rewrite Hf, Hr.
      split; [lia|]. split; [reflexivity|]. split.
      * replace (j + S m)%nat with (S j + m)%nat by lia. reflexivity.
      * intros Hlast. f_equal. apply Hall.
        replace (S j + n - 1)%nat with (j + S n - 1)%nat by lia. exact Hlast.
    + exists 0%nat. simpl.
      assert (Hnone : forall l,
                Forall (fun t => fst (dueTime base (itemDelay options j), j)
                                 <= fst t) l ->
                filter (isDue now) l = [] /\
                filter (fun t => negb (isDue now t)) l = l).
      { induction 1 as [|t l Ht _ IHl]; [split; reflexivity|].
        destruct IHl as [IH1 IH2]. simpl.
        assert (Hnd : isDue now t = false).
        { unfold isDue in *. apply not_true_iff_false. rewrite Qle_bool_iff.
          apply not_true_iff_false in Hdue. rewrite Qle_bool_iff in Hdue.
          simpl in *. lra. }
        rewrite Hnd. simpl. rewrite IH1, IH2. split; reflexivity. }
      destruct (Hnone (schedule options base (S j) n)) as [H1 H2].
      { unfold schedule. apply Forall_forall. intros t Hin.
        apply in_map_iff in Hin as (i & <- & Hi). apply in_seq in Hi.
        simpl. unfold dueTime.
        pose proof (itemDelay_clamped_mono options j i ltac:(lia)). lra. }
      rewrite H1, H2.
      split; [lia|]. split; [reflexivity|]. split.
      * rewrite Nat.add_0_r. reflexivity.
      * intros Hlast. exfalso.
        unfold isDue in Hdue. apply not_true_iff_false in Hdue.
        rewrite Qle_bool_iff in Hdue. simpl in Hdue. apply Hdue.
        unfold dueTime in *.
        pose proof (itemDelay_clamped_mono options j (j + S n - 1) ltac:(lia)).
        lra.
Qed.

(** **** The stagger hook through its events *)

Lemma staggerCommit_inv {T : Type} (host : Host) (itemCount : nat)
    (options : StaggerOptions) (elementRef : option T) (timed : bool)
    (s : Stagger) (k : nat) :
  hook_inv host (sg_observerOptions options) elementRef (sg_hook s) ->
  (k <= itemCount)%nat ->
  visibleItems s = prefixArray k itemCount ->
  (exists j n base,
     sg_timeouts s = schedule options base j n /\
     (j <= k)%nat /\ (j + n <= itemCount)%nat /\
     (sg_dep s = false -> n = 0%nat) /\
     (sg_dep s = true -> (j + n)%nat = itemCount) /\
     (timed = true -> base <= sg_clock s)) ->
  stagger_inv host itemCount options elementRef timed
    (staggerCommit itemCount options s) k.
Proof.
  intros Hh Hk Hv Hsched. unfold staggerCommit, stagger_inv.
  destruct (Bool.eqb _ (sg_dep s)) eqn:E.
  - apply Bool.eqb_prop in E.
    split; [exact Hh|]. split; [symmetry; exact E|]. split; [exact Hk|].
    split; [exact Hv|]. exact Hsched.
  - unfold staggerEffect. simpl.
    split; [exact Hh|]. split; [reflexivity|]. split; [exact Hk|].
    split; [exact Hv|].
    destruct (returned_isIntersecting (sg_observerOptions options) (sg_hook s)).
    + exists 0%nat, itemCount, (sg_clock s).
      split; [reflexivity|]. split; [lia|]. split; [lia|].
      split; [discriminate|]. split; [reflexivity|]. intros _. lra.
    + exists 0%nat, 0%nat, (sg_clock s).
      split; [reflexivity|]. split; [lia|]. split; [lia|].
      split; [reflexivity|]. split; [discriminate|]. intros _. lra.
Qed.

Lemma mountStagger_inv {T : Type} (host : Host) (itemCount : nat)
    (options : StaggerOptions) (elementRef : option T) (timed : bool)
    (s : Stagger) :
  mountStagger host itemCount options elementRef = JS.Normal s ->
  stagger_inv host itemCount options elementRef timed s 0.
Proof.
  unfold mountStagger.
  destruct (mount host (sg_observerOptions options) elementRef) as [h|] eqn:Hm;
    [|discriminate].
  intros [= <-]. apply staggerCommit_inv; simpl.
  - eapply HookProperties.mount_inv, Hm.
  - lia.
  - unfold prefixArray. rewrite Nat.sub_0_r. reflexivity.
  - exists 0%nat, 0%nat, 0. split; [reflexivity|]. split; [lia|].
    split; [lia|]. split; [reflexivity|]. split; [discriminate|]. intros _. lra.
Qed.

Lemma elapseStagger_inv {T : Type} (host : Host) (itemCount : nat)
    (options : StaggerOptions) (elementRef : option T) (timed : bool)
    (dt : Q) (s : Stagger) (k : nat) :
  (timed = true -> 0 <= dt) ->
  stagger_inv host itemCount options elementRef timed s k ->
  exists k',
    stagger_inv host itemCount options elementRef timed (elapseStagger dt s) k' /\
    (k <= k')%nat /\
    (sg_timeouts s = [] -> k' = k) /\
    (timed = true -> sg_dep s = true ->
     Qmax 0 (itemDelay options (itemCount - 1)) <= dt -> k' = itemCount).
Proof.
  intros Hdt (Hh & Hdep & Hk & Hv & j & n & base & Hto & Hjk & Hjn & Hoff & Hon & Hbase).
  destruct (due_timers_first options base (sg_clock s + dt) n j)
    as (m & Hm & Hdue & Hrest & Hall).
  exists (Nat.max k (j + m)).
  assert (Hv' : visibleItems (elapseStagger dt s)
                = prefixArray (Nat.max k (j + m)) itemCount).
  { unfold elapseStagger. simpl. rewrite Hto, Hdue, Hv.
    apply reveal_schedule; lia. }
  split; [|split; [lia|split]].
  - unfold stagger_inv. split; [exact Hh|]. split; [exact Hdep|].
    split; [lia|]. split; [exact Hv'|].
    exists (j + m)%nat, (n - m)%nat, base.
    unfold elapseStagger. simpl. rewrite Hto, Hrest.
    split; [reflexivity|]. split; [lia|]. split; [lia|].
    split; [intros Hd; specialize (Hoff Hd); lia|].
    split; [intros Hd; specialize (Hon Hd); lia|].
    intros Ht. specialize (Hbase Ht). specialize (Hdt Ht). lra.
  - intros Hempty. rewrite Hempty in Hto. unfold schedule in Hto.
    destruct n; [|discriminate]. lia.
  - intros Ht Hd Hlong. specialize (Hbase Ht). specialize (Hon Hd).
    assert (m = n).
    { apply Hall. rewrite Hon. unfold dueTime. lra. }
    lia.
Qed.

Lemma stepStagger_inv {T : Type} (host : Host) (itemCount : nat)
    (options : StaggerOptions) (elementRef : option T) (timed : bool)
    (e : HookEvent) (s : Stagger) (k : nat) :
  (timed = true -> nonnegative e) ->
  stagger_inv host itemCount options elementRef timed s k ->
  exists s' k',
    stepStagger host itemCount options elementRef s e = JS.Normal s' /\
    stagger_inv host itemCount options elementRef timed s' k' /\
    (k <= k')%nat.
Proof.
  intros He Hinv. destruct e as [entry|dt]; simpl.
  - destruct Hinv as (Hh & Hdep & Hk & Hv & Hsched).
    destruct (HookProperties.notify_spec host (sg_observerOptions options)
                elementRef entry (sg_hook s) Hh) as (h' & -> & Hh' & _).
    eexists. exists k. split; [reflexivity|]. split; [|lia].
    apply staggerCommit_inv; simpl; assumption.
  - destruct (elapseStagger_inv host itemCount options elementRef timed dt s k
                He Hinv) as (k' & Hinv' & Hkk & _).
    exists (elapseStagger dt s), k'. auto.
Qed.

Lemma runStaggerFrom_inv {T : Type} (host : Host) (itemCount : nat)
    (options : StaggerOptions) (elementRef : option T) (timed : bool)
    (events : list HookEvent) :
  (timed = true -> Forall nonnegative events) ->
  forall s k,
  stagger_inv host itemCount options elementRef timed s k ->
  exists s' k',
    runStaggerFrom host itemCount options elementRef events s = JS.Normal s' /\
    stagger_inv host itemCount options elementRef timed s' k' /\
    (k <= k')%nat.
Proof.
  induction events as [|e rest IH]; intros Hnn s k Hinv.
  - exists s, k. simpl. auto.
  - assert (He : timed = true -> nonnegative e).
    { intros Ht. specialize (Hnn Ht). inversion Hnn. assumption. }
    assert (Hrest : timed = true -> Forall nonnegative rest).
    { intros Ht. specialize (Hnn Ht). inversion Hnn. assumption. }
    destruct (stepStagger_inv host itemCount options elementRef timed e s k
                He Hinv) as (s1 & k1 & Hs & Hinv1 & Hk1).
    destruct (IH Hrest s1 k1 Hinv1) as (s' & k' & Hr & Hinv' & Hk').
    exists s', k'. simpl. rewrite Hs.
    split; [exact Hr|]. split; [exact Hinv'|lia].
Qed.

Lemma runStaggerFrom_app {T : Type} (host : Host) (itemCount : nat)
    (options : StaggerOptions) (elementRef : option T)
    (events more : list HookEvent) :
  forall s s',
  runStaggerFrom host itemCount options elementRef events s = JS.Normal s' ->
  runStaggerFrom host itemCount options elementRef (events ++ more) s =
  runStaggerFrom host itemCount options elementRef more s'.
Proof.
  induction events as [|e rest IH]; intros s s' H; simpl in *.
  - injection H as <-. reflexivity.
  - destruct (stepStagger host itemCount options elementRef s e); [|discriminate].
    apply IH, H.
Qed.

Lemma runStagger_inv {T : Type} (host : Host) (itemCount : nat)
    (options : StaggerOptions) (elementRef : option T) (timed : bool)
    (events : list HookEvent) (s : Stagger) :
  (timed = true -> Forall nonnegative events) ->
  runStagger host itemCount options elementRef events = JS.Normal s ->
  exists k, stagger_inv host itemCount options elementRef timed s k.
Proof.
  unfold runStagger.
  destruct (mountStagger host itemCount options elementRef) as [s0|] eqn:Hm;
    [|discriminate].
  intros Hnn Hrun.
  pose proof (mountStagger_inv host itemCount options elementRef timed s0 Hm)
    as Hinv0.
  destruct (runStaggerFrom_inv host itemCount options elementRef timed events
              Hnn s0 0%nat Hinv0) as (s1 & k & Hr & Hinv & _).
  assert (s1 = s) by congruence. subst s1. exists k. exact Hinv.
Qed.

Lemma prefixArray_inj (k k' n : nat) :
  (k <= n)%nat -> (k' <= n)%nat ->
  prefixArray k n = prefixArray k' n -> k = k'.
Proof.
  revert k' n. induction k as [|k IH]; intros k' n Hk Hk' E.
  - destruct k' as [|k']; [reflexivity|].
    destruct n as [|n]; [lia|]. unfold prefixArray in E. simpl in E. discriminate.
  - destruct n as [|n]; [lia|]. destruct k' as [|k'].
    + unfold prefixArray in E. simpl in E. discriminate.
    + rewrite !prefixArray_cons in E by lia. injection E as E.
      f_equal. apply (IH k' n); [lia|lia|exact E].
Qed.

(** X11. After any sequence of observer entries and time steps the array
    [visibleItems] has [itemCount] entries, none of them a hole, and the
    revealed items are the first ones; further events are handled without
    failure and never hide an item again, also under [triggerOnce = false]
    when the element leaves the viewport. *)
Theorem stagger_reveals_in_order {T : Type} (host : Host) (itemCount : nat)
    (options : StaggerOptions) (elementRef : option T)
    (events more : list HookEvent) (s : Stagger) :
  runStagger host itemCount options elementRef events = JS.Normal s ->
  exists s' k k',
    runStagger host itemCount options elementRef (events ++ more) = JS.Normal s' /\
    visibleItems s = prefixArray k itemCount /\
    visibleItems s' = prefixArray k' itemCount /\
    (k <= k')%nat /\ (k' <= itemCount)%nat.
Proof.
  unfold runStagger.
  destruct (mountStagger host itemCount options elementRef) as [s0|] eqn:Hm;
    [|discriminate].
  intros Hrun.
  pose proof (mountStagger_inv host itemCount options elementRef false s0 Hm)
    as Hinv0.
  assert (Hfalse : forall l, false = true -> Forall nonnegative l)
    by (intros l H; discriminate).
  destruct (runStaggerFrom_inv host itemCount options elementRef false events
              (Hfalse events) s0 0%nat Hinv0) as (s1 & k & Hr & Hinv & _).
  assert (s1 = s) by congruence. subst s1.
  destruct (runStaggerFrom_inv host itemCount options elementRef false more
              (Hfalse more) s k Hinv) as (s' & k' & Hr' & Hinv' & Hkk).
  exists s', k, k'.
  rewrite (runStaggerFrom_app host itemCount options elementRef events more
             s0 s Hrun).
  destruct Hinv as (_ & _ & _ & Hv & _).
  destruct Hinv' as (_ & _ & Hk' & Hv' & _).
  repeat split; assumption.
Qed.

Lemma stagger_reveals_in_order_witness :
  exists s' k',
    runStagger observed_host 4
      (stagger_options toggling_options (Some (1 # 10))) (Some tt)
      ([Entry true; Elapse 100] ++ [Entry false; Elapse 1000]) = JS.Normal s' /\
    visibleItems s' = prefixArray k' 4 /\
    (k' <= 4)%nat.
Proof.
  destruct (runStagger observed_host 4
              (stagger_options toggling_options (Some (1 # 10))) (Some tt)
              [Entry true; Elapse 100])
    as [s|] eqn:Hrun; [|vm_compute in Hrun; discriminate].
  destruct (stagger_reveals_in_order observed_host 4
              (stagger_options toggling_options (Some (1 # 10))) (Some tt)
              [Entry true; Elapse 100] [Entry false; Elapse 1000] s Hrun)
    as (s' & k & k' & Hrun' & _ & Hv' & _ & Hk').
  exists s', k'. repeat split; assumption.
Defined.

(** X12. After any sequence of events, while the hook reports the element
    as not intersecting no reveal timer is pending: the timers of the items
    not yet revealed were cleared, and the passing of time reveals nothing. *)
Theorem stagger_cancelled_when_hidden {T : Type} (host : Host) (itemCount : nat)
    (options : StaggerOptions) (elementRef : option T)
    (events : list HookEvent) (s : Stagger) (dt : Q) :
  runStagger host itemCount options elementRef events = JS.Normal s ->
  returned_isIntersecting (sg_observerOptions options) (sg_hook s) = false ->
  sg_timeouts s = [] /\
  visibleItems (elapseStagger dt s) = visibleItems s.
Proof.
  intros Hrun Hhidden.
  destruct (runStagger_inv host itemCount options elementRef false events s)
    as (k & _ & Hdep & _ & _ & j & n & base & Hto & _ & _ & Hoff & _);
    [discriminate|exact Hrun|].
  assert (Hn : n = 0%nat) by (apply Hoff; congruence). subst n.
  assert (Hempty : sg_timeouts s = []) by (rewrite Hto; reflexivity).
  split; [exact Hempty|]. unfold elapseStagger. simpl. rewrite Hempty.
  reflexivity.
Qed.

Lemma stagger_cancelled_when_hidden_witness :
  exists s,
    runStagger observed_host 4
      (stagger_options toggling_options (Some (1 # 10))) (Some tt)
      [Entry true; Elapse 100; Entry false] = JS.Normal s /\
    sg_timeouts s = [] /\
    visibleItems (elapseStagger 1000 s)
    = [Some true; Some true; Some false; Some false].
Proof.
  destruct (runStagger observed_host 4
              (stagger_options toggling_options (Some (1 # 10))) (Some tt)
              [Entry true; Elapse 100; Entry false])
    as [s|] eqn:Hrun; [|vm_compute in Hrun; discriminate].
  exists s. split; [reflexivity|].
  pose proof Hrun as Hs. vm_compute in Hs. injection Hs as Hs.
  assert (Hhidden : returned_isIntersecting toggling_options (sg_hook s) = false)
    by (rewrite <- Hs; reflexivity).
  destruct (stagger_cancelled_when_hidden observed_host 4
              (stagger_options toggling_options (Some (1 # 10))) (Some tt)
              _ s 1000 Hrun Hhidden) as [Hto Hel].
  split; [exact Hto|]. rewrite Hel, <- Hs. reflexivity.
Defined.

(** X13. After any sequence of events in which time does not run backwards,
    while the hook reports the element as intersecting, letting
    [(itemCount - 1) * staggerDelay * 1000] pass (nothing, if that is
    negative) reveals every item. *)
Theorem stagger_completes {T : Type} (host : Host) (itemCount : nat)
    (options : StaggerOptions) (elementRef : option T)
    (events : list HookEvent) (s : Stagger) (dt : Q) :
  Forall nonnegative events ->
  runStagger host itemCount options elementRef events = JS.Normal s ->
  returned_isIntersecting (sg_observerOptions options) (sg_hook s) = true ->
  Qmax 0 (itemDelay options (itemCount - 1)) <= dt ->
  visibleItems (elapseStagger dt s) = repeat (Some true) itemCount.
Proof.
  intros Hnn Hrun Hvisible Hdt.
  destruct (runStagger_inv host itemCount options elementRef true events s
              (fun _ => Hnn) Hrun) as (k & Hinv).
  assert (Hdt0 : true = true -> 0 <= dt).
  { intros _. pose proof (Q.le_max_l 0 (itemDelay options (itemCount - 1))). lra. }
  destruct (elapseStagger_inv host itemCount options elementRef true dt s k
              Hdt0 Hinv) as (k' & Hinv' & _ & _ & Hfull).
  destruct Hinv as (_ & Hdep & _).
  assert (Hk' : k' = itemCount).
  { apply Hfull; [reflexivity|congruence|exact Hdt]. }
  destruct Hinv' as (_ & _ & _ & Hv' & _).
  rewrite Hv', Hk'. unfold prefixArray. rewrite Nat.sub_diag. simpl.
  apply app_nil_r.
Qed.

Lemma stagger_completes_witness :
  exists s,
    runStagger observed_host 4
      (stagger_options default_options (Some (1 # 10))) (Some tt)
      [Entry false; Elapse 40; Entry true; Elapse 100] = JS.Normal s /\
    visibleItems s = [Some true; Some true; Some false; Some false] /\
    visibleItems (elapseStagger 300 s)
    = [Some true; Some true; Some true; Some true].
Proof.
  destruct (runStagger observed_host 4
              (stagger_options default_options (Some (1 # 10))) (Some tt)
              [Entry false; Elapse 40; Entry true; Elapse 100])
    as [s|] eqn:Hrun; [|vm_compute in Hrun; discriminate].
  exists s. split; [reflexivity|].
  pose proof Hrun as Hs. vm_compute in Hs. injection Hs as Hs.
  split; [rewrite <- Hs; reflexivity|].
  apply (stagger_completes observed_host 4
           (stagger_options default_options (Some (1 # 10))) (Some tt)
           [Entry false; Elapse 40; Entry true; Elapse 100] s 300).
  - repeat constructor; simpl; lra.
  - exact Hrun.
  - rewrite <- Hs. reflexivity.
  - vm_compute. discriminate.
Defined.

End AnimationProperties.

(** *** Focus order, keyboard navigation, contrast levels *)

Module AccessibilityProperties.

Import Accessibility.
Local Open Scope Z_scope.

Lemma at_index_nat (l : list HTMLElement) (j : nat) :
  at_index l (Z.of_nat j) = nth_error l j.
Proof.
  unfold at_index.
  assert (H : (Z.of_nat j <? 0) = false) by (apply Z.ltb_ge; lia).
  rewrite H, Nat2Z.id. reflexivity.
Qed.

Lemma at_index_negative (l : list HTMLElement) (z : Z) :
  z < 0 -> at_index l z = None.
Proof.
  intros H. unfold at_index.
  assert (E : (z <? 0) = true) by (apply Z.ltb_lt; assumption).
  rewrite E. reflexivity.
Qed.

Lemma indexOf_bounds (x : HTMLElement) (l : list HTMLElement) :
  -1 <= indexOf x l < array_length l.
Proof.
  unfold array_length. induction l as [|y l IH]; simpl indexOf; [simpl; lia|].
  destruct (Nat.eqb x y); [simpl List.length; lia|].
  destruct (indexOf x l =? -1) eqn:E; simpl List.length; lia.
Qed.

Lemma indexOf_notin (x : HTMLElement) (l : list HTMLElement) :
  ~ In x l -> indexOf x l = -1.
Proof.
  induction l as [|y l IH]; intros Hnot; [reflexivity|]. simpl.
  destruct (Nat.eqb x y) eqn:E.
  - apply Nat.eqb_eq in E. subst. exfalso. apply Hnot. left. reflexivity.
  - rewrite IH by (intros H; apply Hnot; right; exact H). reflexivity.
Qed.

Lemma indexOf_in (x : HTMLElement) (l : list HTMLElement) :
  In x l ->
  exists i : nat, indexOf x l = Z.of_nat i /\ nth_error l i = Some x.
Proof.
  induction l as [|y l IH]; intros Hin; [contradiction|]. simpl.
  destruct (Nat.eqb x y) eqn:E.
  - apply Nat.eqb_eq in E. subst. exists 0%nat. split; reflexivity.
  - destruct Hin as [->|Hin]; [rewrite Nat.eqb_refl in E; discriminate|].
    destruct (IH Hin) as (i & Hi & Hn). rewrite Hi.
    assert (Hne : (Z.of_nat i =? -1) = false) by (apply Z.eqb_neq; lia).
    rewrite Hne. exists (S i). split; [lia|exact Hn].
Qed.

Lemma indexOf_nth (l : list HTMLElement) :
  NoDup l -> forall (j : nat) (y : HTMLElement),
  nth_error l j = Some y -> indexOf y l = Z.of_nat j.
Proof.
  induction 1 as [|x l Hx Hnd IH]; intros j y Hj.
  - destruct j; discriminate.
  - destruct j as [|j]; simpl in *.
    + injection Hj as ->. rewrite Nat.eqb_refl. reflexivity.
    + assert (Hin : In y l) by (eapply nth_error_In; exact Hj).
      assert (E : Nat.eqb y x = false).
      { apply Nat.eqb_neq. intros ->. contradiction. }
      rewrite E, (IH j y Hj).
      assert (Hne : (Z.of_nat j =? -1) = false) by (apply Z.eqb_neq; lia).
      rewrite Hne. lia.
Qed.

Lemma nth_error_some_lt (l : list HTMLElement) (j : nat) :
  (j < List.length l)%nat -> exists y, nth_error l j = Some y.
Proof.
  intros H. destruct (nth_error l j) as [y|] eqn:E; [exists y; reflexivity|].
  apply nth_error_None in E. lia.
Qed.

(** X14. In a list of distinct focusable elements that contains the current
    one, the next and the previous element exist and belong to the list
    (wrapping at both ends), and each move undoes the other. *)
Theorem focus_moves_undo_each_other
    (current : HTMLElement) (focusableElements : list HTMLElement) :
  NoDup focusableElements ->
  In current focusableElements ->
  (exists next,
     getNextFocusable current focusableElements = Some next /\
     In next focusableElements /\
     getPreviousFocusable next focusableElements = Some current) /\
  (exists previous,
     getPreviousFocusable current focusableElements = Some previous /\
     In previous focusableElements /\
     getNextFocusable previous focusableElements = Some current).
Proof.
  intros Hnd Hin. set (l := focusableElements) in *.
  destruct (indexOf_in current l Hin) as (i & Hi & Hnth).
  assert (Hlen : (i < List.length l)%nat)
    by (apply nth_error_Some; rewrite Hnth; discriminate).
  split.
  - unfold getNextFocusable. rewrite Hi.
    replace (Z.of_nat i + 1) with (Z.of_nat (S i)) by lia.
    rewrite at_index_nat.
    destruct (nth_error l (S i)) as [y|] eqn:Hy; simpl or_else.
    + exists y. split; [reflexivity|]. split; [eapply nth_error_In; exact Hy|].
      unfold getPreviousFocusable. rewrite (indexOf_nth l Hnd (S i) y Hy).
      replace (Z.of_nat (S i) - 1) with (Z.of_nat i) by lia.
      rewrite at_index_nat, Hnth. reflexivity.
    + apply nth_error_None in Hy.
      assert (Hlast : S i = List.length l) by lia.
      change 0 with (Z.of_nat 0). rewrite at_index_nat.
      destruct (nth_error_some_lt l 0 ltac:(lia)) as (y & Hy0).
      rewrite Hy0. exists y. split; [reflexivity|].
      split; [eapply nth_error_In; exact Hy0|].
      unfold getPreviousFocusable. rewrite (indexOf_nth l Hnd 0 y Hy0).
      rewrite at_index_negative by lia. simpl or_else.
      unfold array_length. rewrite <- Hlast.
      replace (Z.of_nat (S i) - 1) with (Z.of_nat i) by lia.
      rewrite at_index_nat. exact Hnth.
  - unfold getPreviousFocusable. rewrite Hi.
    destruct i as [|i].
    + rewrite at_index_negative by lia. simpl or_else.
      unfold array_length.
      replace (Z.of_nat (List.length l) - 1)
        with (Z.of_nat (List.length l - 1)) by lia.
      rewrite at_index_nat.
      destruct (nth_error_some_lt l (List.length l - 1) ltac:(lia)) as (y & Hy).
      rewrite Hy. exists y. split; [reflexivity|].
      split; [eapply nth_error_In; exact Hy|].
      unfold getNextFocusable. rewrite (indexOf_nth l Hnd _ y Hy).
      replace (Z.of_nat (List.length l - 1) + 1)
        with (Z.of_nat (List.length l)) by lia.
      rewrite at_index_nat.
      assert (Hnone : nth_error l (List.length l) = None)
        by (apply nth_error_None; lia).
      rewrite Hnone. simpl or_else.
      change 0 with (Z.of_nat 0). rewrite at_index_nat. exact Hnth.
    + replace (Z.of_nat (S i) - 1) with (Z.of_nat i) by lia.
      rewrite at_index_nat.
      destruct (nth_error_some_lt l i ltac:(lia)) as (y & Hy).
      rewrite Hy. exists y. split; [reflexivity|].
      split; [eapply nth_error_In; exact Hy|].
      unfold getNextFocusable. rewrite (indexOf_nth l Hnd i y Hy).
      replace (Z.of_nat i + 1) with (Z.of_nat (S i)) by lia.
      rewrite at_index_nat, Hnth. reflexivity.
Qed.

Lemma focus_moves_undo_each_other_witness :
  exists next,
    getNextFocusable 9%nat [4; 7; 9]%nat = Some next /\
    In next [4; 7; 9]%nat /\
    getPreviousFocusable next [4; 7; 9]%nat = Some 9%nat.
Proof.
  apply (focus_moves_undo_each_other 9%nat [4; 7; 9]%nat).
  - repeat constructor; simpl; intuition discriminate.
  - simpl. tauto.
Defined.

(** X15. When the current element is not among the focusable elements, the
    next element is the first of the list and the previous one is the last;
    both are undefined when the list is empty. *)
Theorem focus_from_outside
    (current : HTMLElement) (focusableElements : list HTMLElement) :
  ~ In current focusableElements ->
  getNextFocusable current focusableElements = hd_error focusableElements /\
  getPreviousFocusable current focusableElements
  = hd_error (rev focusableElements).
Proof.
  intros Hnot. unfold getNextFocusable, getPreviousFocusable.
  rewrite (indexOf_notin current focusableElements Hnot).
  split.
  - change (-1 + 1) with (Z.of_nat 0). rewrite at_index_nat.
    destruct focusableElements; reflexivity.
  - rewrite at_index_negative by lia. simpl or_else.
    unfold array_length.
    destruct focusableElements as [|x l] using rev_ind; [reflexivity|].
    rewrite rev_app_distr. simpl hd_error.
    rewrite length_app. simpl List.length.
    replace (Z.of_nat (List.length l + 1) - 1)
      with (Z.of_nat (List.length l)) by lia.
    rewrite at_index_nat, nth_error_app2 by lia.
    rewrite Nat.sub_diag. reflexivity.
Qed.

Lemma focus_from_outside_witness :
  getNextFocusable 5%nat [4; 7; 9]%nat = Some 4%nat /\
  getPreviousFocusable 5%nat [4; 7; 9]%nat = Some 9%nat.
Proof.
  apply (focus_from_outside 5%nat [4; 7; 9]%nat).
  simpl. intuition discriminate.
Defined.

Lemma at_index_in_range (items : list HTMLElement) (j : Z) :
  0 <= j < array_length items ->
  exists e, at_index items j = Some e /\ nth_error items (Z.to_nat j) = Some e.
Proof.
  unfold array_length. intros Hj.
  destruct (nth_error_some_lt items (Z.to_nat j) ltac:(lia)) as (e & He).
  exists e. split; [|exact He].
  unfold at_index. destruct (j <? 0) eqn:E; [|exact He].
  apply Z.ltb_lt in E. lia.
Qed.

Lemma forward_index (items : list HTMLElement) (i : Z) :
  0 <= i < array_length items ->
  js_rem (i + 1) (array_length items)
  = Index (if i + 1 =? array_length items then 0 else i + 1).
Proof.
  intros Hi. unfold js_rem.
  assert (Hn : (array_length items =? 0) = false) by (apply Z.eqb_neq; lia).
  rewrite Hn. f_equal.
  destruct (i + 1 =? array_length items) eqn:E.
  - apply Z.eqb_eq in E. rewrite E. apply Z.rem_same. lia.
  - apply Z.eqb_neq in E. apply Z.rem_small. lia.
Qed.

(** X16. With the current index inside a list of items, every handled key
    (the four arrows, Home, End) reports an index inside the list and
    focuses the item at that index. *)
Theorem arrow_navigation_stays_in_range
    (key : string) (items : list HTMLElement) (currentIndex : Z) (r : Navigated) :
  0 <= currentIndex < array_length items ->
  handleArrowNavigation key items currentIndex = Some r ->
  exists j e,
    newIndex r = Index j /\ 0 <= j < array_length items /\
    focused r = Some e /\ nth_error items (Z.to_nat j) = Some e.
Proof.
  intros Hi. unfold handleArrowNavigation.
  assert (Hgo : forall j, 0 <= j < array_length items ->
            forall r, Some {| newIndex := Index j;
                              focused := at_jsindex items (Index j) |} = Some r ->
            exists j e, newIndex r = Index j /\ 0 <= j < array_length items /\
                        focused r = Some e /\
                        nth_error items (Z.to_nat j) = Some e).
  { intros j Hj r' [= <-]. simpl.
    destruct (at_index_in_range items j Hj) as (e & He & Hn).
    exists j, e. repeat split; try assumption; lia. }
  destruct (String.eqb key "ArrowDown" || String.eqb key "ArrowRight")%bool.
  { rewrite (forward_index items currentIndex Hi). apply Hgo.
    destruct (currentIndex + 1 =? array_length items) eqn:E; [lia|].
    apply Z.eqb_neq in E. lia. }
  destruct (String.eqb key "ArrowUp" || String.eqb key "ArrowLeft")%bool.
  { apply Hgo. destruct (currentIndex =? 0) eqn:E; [lia|].
    apply Z.eqb_neq in E. lia. }
  destruct (String.eqb key "Home"); [apply Hgo; lia|].
  destruct (String.eqb key "End"); [apply Hgo; lia|].
  discriminate.
Qed.

Lemma arrow_navigation_stays_in_range_witness :
  exists j e,
    newIndex {| newIndex := Index 0; focused := Some 4%nat |} = Index j /\
    0 <= j < array_length [4; 7; 9]%nat /\
    focused {| newIndex := Index 0; focused := Some 4%nat |} = Some e /\
    nth_error [4; 7; 9]%nat (Z.to_nat j) = Some e.
Proof.
  apply (arrow_navigation_stays_in_range "ArrowRight" [4; 7; 9]%nat 2).
  - unfold array_length. simpl. lia.
  - reflexivity.
Defined.

(** X17. With the current index inside the list, a forward arrow followed by
    a backward arrow, or a backward arrow followed by a forward one, reports
    the index it started from: the two moves wrap at the ends and undo each
    other. *)
Theorem arrow_navigation_round_trip
    (forward backward : string) (items : list HTMLElement) (currentIndex : Z) :
  forward = "ArrowDown"%string \/ forward = "ArrowRight"%string ->
  backward = "ArrowUp"%string \/ backward = "ArrowLeft"%string ->
  0 <= currentIndex < array_length items ->
  (exists r1 j r2,
     handleArrowNavigation forward items currentIndex = Some r1 /\
     newIndex r1 = Index j /\
     handleArrowNavigation backward items j = Some r2 /\
     newIndex r2 = Index currentIndex) /\
  (exists r1 j r2,
     handleArrowNavigation backward items currentIndex = Some r1 /\
     newIndex r1 = Index j /\
     handleArrowNavigation forward items j = Some r2 /\
     newIndex r2 = Index currentIndex).
Proof.
  intros Hf Hb Hi.
  assert (Hforward : forall i, 0 <= i < array_length items ->
            handleArrowNavigation forward items i
            = Some {| newIndex := Index (if i + 1 =? array_length items
                                         then 0 else i + 1);
                      focused := at_jsindex items
                                   (Index (if i + 1 =? array_length items
                                           then 0 else i + 1)) |}).
  { intros i Hi'. unfold handleArrowNavigation.
    destruct Hf as [-> | ->]; simpl orb; cbv iota;
      rewrite (forward_index items i Hi'); reflexivity. }
  assert (Hbackward : forall i,
            handleArrowNavigation backward items i
            = Some {| newIndex := Index (if i =? 0 then array_length items - 1
                                         else i - 1);
                      focused := at_jsindex items
                                   (Index (if i =? 0 then array_length items - 1
                                           else i - 1)) |}).
  { intros i. unfold handleArrowNavigation.
    destruct Hb as [-> | ->]; reflexivity. }
  split.
  - rewrite (Hforward currentIndex Hi).
    eexists. eexists. eexists.
    split; [reflexivity|]. split; [reflexivity|].
    rewrite Hbackward. split; [reflexivity|]. simpl. f_equal.
    destruct (currentIndex + 1 =? array_length items) eqn:E.
    + apply Z.eqb_eq in E. simpl. lia.
    + apply Z.eqb_neq in E.
      assert (E' : (currentIndex + 1 =? 0) = false) by (apply Z.eqb_neq; lia).
      rewrite E'. lia.
  - rewrite Hbackward.
    destruct (currentIndex =? 0) eqn:E;
      (eexists; eexists; eexists;
       split; [reflexivity|]; split; [reflexivity|]).
    + apply Z.eqb_eq in E.
      rewrite Hforward by lia. split; [reflexivity|]. simpl. f_equal.
      assert (E' : (array_length items - 1 + 1 =? array_length items) = true)
        by (apply Z.eqb_eq; lia).
      rewrite E'. lia.
    + apply Z.eqb_neq in E.
      rewrite Hforward by lia. split; [reflexivity|]. simpl. f_equal.
      assert (E' : (currentIndex - 1 + 1 =? array_length items) = false)
        by (apply Z.eqb_neq; lia).
      rewrite E'. lia.
Qed.

Lemma arrow_navigation_round_trip_witness :
  exists r1 j r2,
    handleArrowNavigation "ArrowDown" [4; 7; 9]%nat 2 = Some r1 /\
    newIndex r1 = Index j /\
    handleArrowNavigation "ArrowUp" [4; 7; 9]%nat j = Some r2 /\
    newIndex r2 = Index 2.
Proof.
  apply (arrow_navigation_round_trip "ArrowDown" "ArrowUp" [4; 7; 9]%nat 2).
  - left. reflexivity.
  - left. reflexivity.
  - unfold array_length. simpl. lia.
Defined.

(** X18. On an empty list of items, whatever the current index: a forward
    arrow reports [NaN] (the remainder by zero), End reports -1, a backward
    arrow at index 0 reports -1, and nothing is focused. *)
Theorem arrow_navigation_empty_list (currentIndex : Z) :
  handleArrowNavigation "ArrowDown" [] currentIndex
  = Some {| newIndex := NaNIndex; focused := None |} /\
  handleArrowNavigation "ArrowRight" [] currentIndex
  = Some {| newIndex := NaNIndex; focused := None |} /\
  handleArrowNavigation "End" [] currentIndex
  = Some {| newIndex := Index (-1); focused := None |} /\
  handleArrowNavigation "ArrowUp" [] 0
  = Some {| newIndex := Index (-1); focused := None |}.
Proof. repeat split; reflexivity. Qed.

(** X19. [meetsWCAG] is monotone: a ratio that meets level AAA meets level
    AA for the same text size, a ratio that meets a level for normal text
    meets it for large text, and a greater ratio meets whatever a smaller one
    meets. *)
Theorem meetsWCAG_monotone (ratio ratio' : Q) (level : Level) (size : Size) :
  (meetsWCAG ratio AAA size = true -> meetsWCAG ratio AA size = true) /\
  (meetsWCAG ratio level normal = true -> meetsWCAG ratio level large = true) /\
  ((ratio <= ratio')%Q -> meetsWCAG ratio level size = true ->
   meetsWCAG ratio' level size = true).
Proof.
  unfold meetsWCAG. rewrite !Qle_bool_iff.
  split; [|split].
  - destruct size; simpl; intros H; lra.
  - destruct level; simpl; intros H; lra.
  - intros Hle H. lra.
Qed.

(** X20. The contrast ratio does not depend on the order of the two
    colours, whatever the luminance function. *)
Theorem getContrastRatio_symmetric
    (getLuminance : Q -> Q -> Q -> Q) (color1 color2 : Q * Q * Q) :
  (getContrastRatio getLuminance color1 color2
   == getContrastRatio getLuminance color2 color1)%Q.
Proof.
  destruct color1 as [[r1 g1] b1], color2 as [[r2 g2] b2].
  unfold getContrastRatio.
  rewrite (Q.max_comm (getLuminance r1 g1 b1) (getLuminance r2 g2 b2)).
  rewrite (Q.min_comm (getLuminance r1 g1 b1) (getLuminance r2 g2 b2)).
  reflexivity.
Qed.

End AccessibilityProperties.

(** *** The image carousel of the project modal *)

Module ProjectModalProperties.

Import ProjectModal.
Local Open Scope Z_scope.

Lemma nextImage_in_range (images : nat) (i : Z) :
  0 <= i < Z.of_nat images ->
  nextImage images i = (i + 1) mod Z.of_nat images.
Proof.
  intros Hi. unfold nextImage.
  destruct (i =? Z.of_nat images - 1) eqn:E.
  - apply Z.eqb_eq in E. replace (i + 1) with (Z.of_nat images) by lia.
    rewrite Z.mod_same by lia. reflexivity.
  - apply Z.eqb_neq in E. rewrite Z.mod_small by lia. reflexivity.
Qed.

Lemma clicks_next_in_range (images : nat) (n : nat) :
  forall i, 0 <= i < Z.of_nat images ->
  clicks (nextImage images) n i = (i + Z.of_nat n) mod Z.of_nat images.
Proof.
  induction n as [|n IH]; intros i Hi.
  - simpl. rewrite Z.add_0_r, Z.mod_small by lia. reflexivity.
  - simpl clicks. rewrite (nextImage_in_range images i Hi).
    rewrite IH by (apply Z.mod_pos_bound; lia).
    rewrite Zplus_mod_idemp_l. f_equal. lia.
Qed.

(** X21. While the image index is inside the list of images, the two
    buttons keep it inside, each undoes the other, and as many clicks on
    "next" as there are images come back to the same image. *)
Theorem carousel_cycles (images : nat) (i : Z) :
  0 <= i < Z.of_nat images ->
  0 <= nextImage images i < Z.of_nat images /\
  0 <= prevImage images i < Z.of_nat images /\
  prevImage images (nextImage images i) = i /\
  nextImage images (prevImage images i) = i /\
  clicks (nextImage images) images i = i.
Proof.
  intros Hi.
  split; [|split; [|split; [|split]]].
  - unfold nextImage. destruct (i =? Z.of_nat images - 1) eqn:E; [lia|].
    apply Z.eqb_neq in E. lia.
  - unfold prevImage. destruct (i =? 0) eqn:E; [lia|].
    apply Z.eqb_neq in E. lia.
  - unfold nextImage, prevImage.
    destruct (i =? Z.of_nat images - 1) eqn:E.
    + apply Z.eqb_eq in E. simpl. lia.
    + apply Z.eqb_neq in E.
      assert (E' : (i + 1 =? 0) = false) by (apply Z.eqb_neq; lia).
      rewrite E'. lia.
  - unfold nextImage, prevImage.
    destruct (i =? 0) eqn:E.
    + apply Z.eqb_eq in E. rewrite Z.eqb_refl. lia.
    + apply Z.eqb_neq in E.
      assert (E' : (i - 1 =? Z.of_nat images - 1) = false)
        by (apply Z.eqb_neq; lia).
      rewrite E'. lia.
  - rewrite clicks_next_in_range by assumption.
    replace (i + Z.of_nat images) with (i + 1 * Z.of_nat images) by lia.
    rewrite Z_mod_plus_full. apply Z.mod_small. assumption.
Qed.

Lemma carousel_cycles_witness :
  clicks (nextImage 3) 3 2 = 2 /\ prevImage 3 (nextImage 3 2) = 2.
Proof.
  destruct (carousel_cycles 3 2) as (_ & _ & Hpn & _ & Hcycle); [simpl; lia|].
  split; assumption.
Defined.

(** X22. The index is kept when another project is shown.  From an index
    beyond the last image, "next" never comes back to an image: [n] clicks
    lead to the index plus [n]; "previous" comes back to the last image
    after as many clicks as the index exceeds it. *)
Theorem carousel_beyond_last_image (images : nat) (i : Z) (n : nat) :
  Z.of_nat images <= i ->
  clicks (nextImage images) n i = i + Z.of_nat n /\
  (Z.of_nat n <= i - (Z.of_nat images - 1) ->
   clicks (prevImage images) n i = i - Z.of_nat n).
Proof.
  intros Hi. split.
  - revert i Hi. induction n as [|n IH]; intros i Hi; simpl clicks; [lia|].
    unfold nextImage at 2.
    assert (E : (i =? Z.of_nat images - 1) = false) by (apply Z.eqb_neq; lia).
    rewrite E, IH by lia. lia.
  - revert i Hi. induction n as [|n IH]; intros i Hi Hn; simpl clicks; [lia|].
    unfold prevImage at 2.
    destruct (i =? 0) eqn:E.
    + apply Z.eqb_eq in E.
      assert (n = 0%nat) by lia. subst n. simpl. lia.
    + apply Z.eqb_neq in E.
      destruct (Z.eq_dec (i - 1) (Z.of_nat images - 1)) as [Hlast|Hmore].
      * assert (n = 0%nat) by lia. subst n. simpl. lia.
      * rewrite IH by lia. lia.
Qed.

Lemma carousel_beyond_last_image_witness :
  clicks (nextImage 2) 5 4 = 9 /\ clicks (prevImage 2) 3 4 = 1.
Proof.
  destruct (carousel_beyond_last_image 2 4 5) as [Hnext _]; [simpl; lia|].
  destruct (carousel_beyond_last_image 2 4 3) as [_ Hprev]; [simpl; lia|].
  split; [exact Hnext|]. apply Hprev. simpl. lia.
Defined.

End ProjectModalProperties.

(** *** Image loading with a fallback *)

Module OptimizedImageProperties.

Import OptimizedImage.

(** X23. Two failures in a row, from any state, end with [hasError] set and
    the loading state cleared: the fallback is tried at most once.  The
    "Image not available" panel is then shown exactly when no fallback is
    configured, so that with a fallback that fails too neither an image, nor
    the skeleton, nor the panel is shown. *)
Theorem image_fails_at_most_twice (props : Props) (st : State) :
  let st2 := handleError props (handleError props st) in
  hasError st2 = true /\
  isLoading st2 = false /\
  currentSrc st2 = currentSrc (handleError props st) /\
  showsErrorPanel props st2 = negb (truthy (fallbackSrc props)).
Proof.
  unfold showsErrorPanel, handleError.
  destruct (fallbackSrc props) as [fallback|]; [|simpl; repeat split; reflexivity].
  destruct (truthy (Some fallback)) eqn:Ht; simpl andb.
  - destruct (String.eqb (currentSrc st) fallback) eqn:E; simpl.
    + rewrite E. simpl. repeat split; reflexivity.
    + rewrite String.eqb_refl. simpl. repeat split; reflexivity.
  - simpl. repeat split; reflexivity.
Qed.

End OptimizedImageProperties.

(** *** The typing animation of the hero title *)

Module HeroProperties.

Import Hero.

Lemma substring_0_0 (s : string) : substring 0 0 s = ""%string.
Proof. destruct s; reflexivity. Qed.

Lemma substring_whole (s : string) : substring 0 (String.length s) s = s.
Proof. induction s as [|c s IH]; simpl; [reflexivity|]. rewrite IH. reflexivity. Qed.

Lemma ticks_add (title : string) (config : AnimationConfig) (a b : nat) :
  forall st, ticks title config (a + b) st
             = ticks title config b (ticks title config a st).
Proof.
  induction a as [|a IH]; intros st; [reflexivity|]. simpl. apply IH.
Qed.

Lemma ticks_typing (title : string) (config : AnimationConfig) (n : nat) :
  forall k st, typing title k st -> (k + n <= String.length title)%nat ->
  typing title (k + n) (ticks title config n st).
Proof.
  induction n as [|n IH]; intros k st Hst Hle.
  - rewrite Nat.add_0_r. exact Hst.
  - simpl. replace (k + S n)%nat with (S k + n)%nat by lia.
    apply IH; [|lia].
    destruct Hst as (Hd & Hc & Hi & Ht). unfold tick, typeTitle.
    destruct (timeoutId st) as [d|]; [|contradiction].
    assert (Hlt : Nat.ltb (currentIndex st) (String.length title) = true)
      by (apply Nat.ltb_lt; lia).
    rewrite Hlt, Hi. unfold typing. simpl.
    replace (k + 1)%nat with (S k) by lia.
    repeat split; try assumption; try reflexivity. discriminate.
Qed.

Lemma ticks_done (title : string) (config : AnimationConfig) (n : nat) :
  forall st, timeoutId st = None -> ticks title config n st = st.
Proof.
  induction n as [|n IH]; intros st Hst; [reflexivity|].
  simpl. unfold tick. rewrite Hst. apply IH, Hst.
Qed.

(** X24. The title after [n] timer callbacks: its first [n] characters while [n]
    does not exceed its length; typing is complete from the callback after
    the last character on, and the whole title is shown then. *)
Theorem typing_shows_prefix (title : string) (config : AnimationConfig) (n : nat) :
  let st := ticks title config n (mount config) in
  displayedTitle st = substring 0 (Nat.min n (String.length title)) title /\
  isTypingComplete st = Nat.ltb (String.length title) n /\
  substring 0 (String.length title) title = title.
Proof.
  intros st. subst st.
  assert (H0 : typing title 0 (mount config)).
  { unfold typing, mount. simpl. rewrite substring_0_0.
    repeat split; try reflexivity. discriminate. }
  split; [|split; [|apply substring_whole]].
  - destruct (Nat.le_gt_cases n (String.length title)) as [Hle|Hgt].
    + rewrite Nat.min_l by assumption.
      apply (ticks_typing title config n 0 (mount config) H0). simpl. exact Hle.
    + rewrite Nat.min_r by lia.
      replace n with (String.length title + S (n - String.length title - 1))%nat
        by lia.
      rewrite ticks_add.
      pose proof (ticks_typing title config (String.length title) 0
                    (mount config) H0 (Nat.le_refl _)) as (Hd & Hc & Hi & Ht).
      simpl in Hd, Hi. simpl ticks at 1.
      set (s := ticks title config (String.length title) (mount config)) in *.
      assert (Hlast : tick title config s
                      = {| displayedTitle := displayedTitle s;
                           isTypingComplete := true; isClient := isClient s;
                           currentIndex := currentIndex s;
                           timeoutId := None |}).
      { unfold tick, typeTitle. destruct (timeoutId s); [|contradiction].
        rewrite Hi, Nat.ltb_irrefl. reflexivity. }
      rewrite Hlast, ticks_done by reflexivity. simpl. exact Hd.
  - destruct (Nat.le_gt_cases n (String.length title)) as [Hle|Hgt].
    + assert (Hf : Nat.ltb (String.length title) n = false)
        by (apply Nat.ltb_ge; assumption).
      rewrite Hf.
      apply (ticks_typing title config n 0 (mount config) H0). simpl. exact Hle.
    + assert (Hf : Nat.ltb (String.length title) n = true)
        by (apply Nat.ltb_lt; assumption).
      rewrite Hf.
      replace n with (String.length title + S (n - String.length title - 1))%nat
        by lia.
      rewrite ticks_add.
      pose proof (ticks_typing title config (String.length title) 0
                    (mount config) H0 (Nat.le_refl _)) as (Hd & Hc & Hi & Ht).
      simpl in Hd, Hi. simpl ticks at 1.
      set (s := ticks title config (String.length title) (mount config)) in *.
      assert (Hlast : tick title config s
                      = {| displayedTitle := displayedTitle s;
                           isTypingComplete := true; isClient := isClient s;
                           currentIndex := currentIndex s;
                           timeoutId := None |}).
      { unfold tick, typeTitle. destruct (timeoutId s); [|contradiction].
        rewrite Hi, Nat.ltb_irrefl. reflexivity. }
      rewrite Hlast, ticks_done by reflexivity. reflexivity.
Qed.

End HeroProperties.

(** *** Portfolio helpers and the project cards *)

Module PortfolioProperties.

Import Portfolio.

Lemma fold_left_sum_length (categories : list SkillCategory) :
  forall acc : nat,
  fold_left (fun sum category => (sum + List.length (skills category))%nat)
            categories acc
  = (acc + List.length
             (flat_map (fun category =>
                          map (fun skill => (skill, category_name category))
                              (skills category))
                       categories))%nat.
Proof.
  induction categories as [|c rest IH]; intros acc; simpl; [lia|].
  rewrite IH, length_app, length_map. lia.
Qed.

Lemma filter_length_le {A : Type} (f : A -> bool) (l : list A) :
  (List.length (filter f l) <= List.length l)%nat.
Proof.
  induction l as [|x l IH]; simpl; [lia|]. destruct (f x); simpl; lia.
Qed.

(** X25. The counts of [getPortfolioSummary] and of [getDataStatistics] agree on
    the same data: the number of flattened skills is the sum of the sizes of
    the categories and the featured counts are equal; the featured projects
    are at most the projects and the expert skills at most the skills. *)
Theorem summary_agrees_with_statistics (data : PortfolioData) :
  totalSkills (getPortfolioSummary data)
  = stat_totalSkills (getDataStatistics data) /\
  featuredProjects (getPortfolioSummary data)
  = stat_featuredProjects (getDataStatistics data) /\
  totalProjects (getPortfolioSummary data)
  = stat_totalProjects (getDataStatistics data) /\
  (featuredProjects (getPortfolioSummary data)
   <= totalProjects (getPortfolioSummary data))%nat /\
  (expertSkills (getPortfolioSummary data)
   <= totalSkills (getPortfolioSummary data))%nat.
Proof.
  unfold getPortfolioSummary, getDataStatistics. simpl.
  split; [|split; [reflexivity|split; [reflexivity|split]]].
  - rewrite fold_left_sum_length. reflexivity.
  - apply filter_length_le.
  - apply filter_length_le.
Qed.

(** X26. Every project that [getProjectsByTechnology] finds for a term is found
    by [searchProjects] for the same term, whatever the strings. *)
Theorem technology_results_are_search_results (data : PortfolioData)
    (toLowerCase : string -> string) (includes : string -> string -> bool)
    (term : string) :
  incl (getProjectsByTechnology data toLowerCase includes term)
       (searchProjects data toLowerCase includes term).
Proof.
  intros project Hin. unfold getProjectsByTechnology in Hin.
  unfold searchProjects.
  apply filter_In in Hin as [Hin Htech]. apply filter_In.
  split; [exact Hin|]. rewrite Htech. apply orb_true_r.
Qed.

Lemma filter_partition {A : Type} (f : A -> bool) (l : list A) :
  Permutation l (filter f l ++ filter (fun x => negb (f x)) l).
Proof.
  induction l as [|x l IH]; simpl; [constructor|].
  destruct (f x); simpl.
  - constructor. exact IH.
  - apply Permutation_cons_app. exact IH.
Qed.

(** X27. For every selected technology the cards of the projects section show
    each project kept by the filter exactly once, featured or regular; the
    two lists are both empty exactly when the filter keeps nothing, which is
    when the "No projects found" message is rendered. *)
Theorem project_cards_partition
    (toLowerCase : string -> string) (includes : string -> string -> bool)
    (projectList : list Project) (selected : string) :
  Permutation (filteredProjects toLowerCase includes projectList selected)
              (featuredCards toLowerCase includes projectList selected
               ++ regularCards toLowerCase includes projectList selected) /\
  (List.length (featuredCards toLowerCase includes projectList selected)
   + List.length (regularCards toLowerCase includes projectList selected)
   = List.length (filteredProjects toLowerCase includes projectList selected))%nat /\
  (filteredProjects toLowerCase includes projectList selected = [] <->
   featuredCards toLowerCase includes projectList selected = [] /\
   regularCards toLowerCase includes projectList selected = []).
Proof.
  unfold featuredCards, regularCards.
  set (l := filteredProjects toLowerCase includes projectList selected).
  pose proof (filter_partition featured l) as Hperm.
  split; [exact Hperm|]. split.
  - apply Permutation_length in Hperm. rewrite length_app in Hperm. lia.
  - split.
    + intros ->. split; reflexivity.
    + intros [Hf Hr]. rewrite Hf, Hr in Hperm. simpl in Hperm.
      apply Permutation_nil. apply Permutation_sym. exact Hperm.
Qed.

End PortfolioProperties.

